(** * Erlang LS supervisor (solidlsp/language_servers/erlang_language_server.py)

    A shallow embedding of [ErlangLanguageServer]: construction, the
    watchdog [_force_kill_if_stuck], the start-up routine [_start_server]
    with its notification handlers, and the two request wrappers.

    Conventions.
    - Python [str] values are modelled as [string]; [str.lower] is the
      ASCII case folding and [a in b] is substring containment.
    - Durations and clock readings are integers counting milliseconds
      ([seconds 45] stands for the Python literal [45.0]).
    - Values that arrive over the wire are [json] trees; the Python
      operations applied to them raise the exception Python raises when
      the value has the wrong shape.
    - The object is a record that is threaded through a state-and-exception
      monad: a mutation made before a [raise] stays visible afterwards, as
      it does for a Python object. *)

From Stdlib Require Import ZArith QArith String Ascii List Bool Lia.
From stdpp Require Import base gmap strings list.
Import ListNotations.

Local Open Scope Z_scope.
Set Warnings "-register-all".

(** ** Python strings *)

Module PyStr.

Definition is_upper (c : ascii) : bool :=
  ((65 <=? nat_of_ascii c) && (nat_of_ascii c <=? 90))%nat.

Definition lower_char (c : ascii) : ascii :=
  if is_upper c then ascii_of_nat (nat_of_ascii c + 32) else c.

(** [s.lower()] *)
Fixpoint lower (s : string) : string :=
  match s with
  | EmptyString => EmptyString
  | String c r => String (lower_char c) (lower r)
  end.

(** [hay.startswith(needle)] *)
Fixpoint startswith (needle hay : string) : bool :=
  match needle, hay with
  | EmptyString, _ => true
  | String _ _, EmptyString => false
  | String a n, String b h => if Ascii.eqb a b then startswith n h else false
  end.

(** [needle in hay] for two strings *)
Fixpoint contains (needle hay : string) : bool :=
  startswith needle hay ||
  match hay with
  | EmptyString => false
  | String _ r => contains needle r
  end.

(** [any(word in text for word in words)] *)
Definition any_in (words : list string) (text : string) : bool :=
  existsb (fun word => contains word text) words.

(** The mathematical notion [contains] decides. *)
Definition occurs_in (needle hay : string) : Prop :=
  exists pre post : string, hay = String.append pre (String.append needle post).

End PyStr.

(** ** Wire values and the Python operations the handlers apply to them *)

Inductive json : Type :=
| JNull
| JBool (b : bool)
| JNum (n : Z)
| JStr (s : string)
| JList (l : list json)
| JDict (d : list (string * json)).

(** The exceptions that occur in this module.  Every one of them is an
  instance of Python's [Exception]; [NoSuchProcess] is the psutil class
  the watchdog names in a handler of its own; [SubprocessError] (with its
  subclass [TimeoutExpired]) and [FileNotFoundError] are the classes the
  installation check names, [PermissionError] an [OSError] it does not. *)
Inductive exn : Type :=
| AttributeError (what : string)
| TypeError (what : string)
| RuntimeError (what : string)
| KeyError (what : string)
| NoSuchProcess
| ZombieProcess
| AccessDenied
| SubprocessError (what : string)
| TimeoutExpired
| FileNotFoundError (what : string)
| PermissionError (what : string)
| TimeoutError (what : string)
| OtherError (what : string).

Module Py.

Fixpoint assoc (key : string) (d : list (string * json)) : option json :=
  match d with
  | [] => None
  | (k, v) :: r => if String.eqb k key then Some v else assoc key r
  end.

(** [d.get(key, default)]: only a dict has [get]. *)
Definition get (d : json) (key : string) (default : json) : json + exn :=
  match d with
  | JDict kv => inl (match assoc key kv with Some v => v | None => default end)
  | _ => inr (AttributeError "get")
  end.

(** [v.lower()]: only a string has [lower]. *)
Definition lower (v : json) : string + exn :=
  match v with
  | JStr s => inl (PyStr.lower s)
  | _ => inr (AttributeError "lower")
  end.

(** [v == literal] for a string literal. *)
Definition eq_str (v : json) (literal : string) : bool :=
  match v with
  | JStr s => String.eqb s literal
  | _ => false
  end.

(** [key in v] for a string [key]: key membership for a dict, substring
    containment for a string, element membership for a list. *)
Definition contains (key : string) (v : json) : bool + exn :=
  match v with
  | JDict kv => inl (match assoc key kv with Some _ => true | None => false end)
  | JStr s => inl (PyStr.contains key s)
  | JList l => inl (existsb (fun x => eq_str x key) l)
  | _ => inr (TypeError "argument is not iterable")
  end.

(** [v[key]] for a string [key]. *)
Definition getitem (v : json) (key : string) : json + exn :=
  match v with
  | JDict kv =>
      match assoc key kv with
      | Some x => inl x
      | None => inr (KeyError key)
      end
  | _ => inr (TypeError "indices must be integers")
  end.

(** [list(v.keys())] *)
Definition keys (v : json) : list string + exn :=
  match v with
  | JDict kv => inl (map fst kv)
  | _ => inr (AttributeError "keys")
  end.

End Py.

(** ** Observable effects *)

Inductive level : Type := DEBUG | INFO | WARNING | ERROR.

(** An f-string: literal text interleaved with the interpolated values. *)
Inductive piece : Type :=
| Lit (s : string)
| Val (v : json)
| Keys (l : list string)
| Millis (d : Z)
| Percent (q : Q)
| Pid (p : Z)
| Exc (e : exn).

(** The handlers [_start_server] registers with the transport. *)
Inductive handler : Type :=
| H_register_capability_handler
| H_window_log_message
| H_check_server_ready
| H_do_nothing.

(** Calls made on [self.server]. *)
Inductive server_call : Type :=
| on_request (method : string) (h : handler)
| on_notification (method : string) (h : handler)
| start
| send_initialize (params : json)
| notify_initialized (params : json)
| call_super (name : string).

(** Calls made on psutil and on the [psutil.Process] object. *)
Inductive ps_call : Type :=
| ps_pid_exists (pid : Z)
| ps_Process (pid : Z)
| ps_cpu_percent
| ps_terminate
| ps_is_running
| ps_kill.

(** Who called [self.server_ready.set()]. *)
Inductive setter : Type :=
| by_log_message
| by_progress
| by_timeout.

Inductive effect : Type :=
| Log (lvl : level) (text : list piece)
| Server (c : server_call)
| Ps (c : ps_call)
| Sleep (d : Z)
| ReadySet (who : setter) (was_set : bool)
| CompletionsSet.

(** A notification the child process emits: method and params. *)
Definition notification : Type := string * json.

(** ** The object and its surroundings *)

Record state : Type := mkState {
  (* attributes of [self] *)
  repository_root_path : string;
  launch_cmd : list string;
  request_timeout : Z;
  server_ready : bool;
  completions_available : bool;
  _request_count : Z;
  _timeout_count : Z;
  _last_timeout_time : Z;
  (* the transport's handler table *)
  handlers : gmap string handler;
  (* the surroundings: wall clock, what the child will emit and when,
     and the effects so far, each with the time it happened *)
  clock : Z;
  inbox : list (Z * notification);
  trace : list (Z * effect)
}.

Definition with_server_ready (b : bool) (s : state) : state :=
  mkState (repository_root_path s) (launch_cmd s) (request_timeout s)
    b (completions_available s)
    (_request_count s) (_timeout_count s) (_last_timeout_time s)
    (handlers s) (clock s) (inbox s) (trace s).

Definition with_completions_available (b : bool) (s : state) : state :=
  mkState (repository_root_path s) (launch_cmd s) (request_timeout s)
    (server_ready s) b
    (_request_count s) (_timeout_count s) (_last_timeout_time s)
    (handlers s) (clock s) (inbox s) (trace s).

Definition with_handlers (h : gmap string handler) (s : state) : state :=
  mkState (repository_root_path s) (launch_cmd s) (request_timeout s)
    (server_ready s) (completions_available s)
    (_request_count s) (_timeout_count s) (_last_timeout_time s)
    h (clock s) (inbox s) (trace s).

Definition with_clock (t : Z) (s : state) : state :=
  mkState (repository_root_path s) (launch_cmd s) (request_timeout s)
    (server_ready s) (completions_available s)
    (_request_count s) (_timeout_count s) (_last_timeout_time s)
    (handlers s) t (inbox s) (trace s).

Definition with_inbox (q : list (Z * notification)) (s : state) : state :=
  mkState (repository_root_path s) (launch_cmd s) (request_timeout s)
    (server_ready s) (completions_available s)
    (_request_count s) (_timeout_count s) (_last_timeout_time s)
    (handlers s) (clock s) q (trace s).

Definition with_trace (tr : list (Z * effect)) (s : state) : state :=
  mkState (repository_root_path s) (launch_cmd s) (request_timeout s)
    (server_ready s) (completions_available s)
    (_request_count s) (_timeout_count s) (_last_timeout_time s)
    (handlers s) (clock s) (inbox s) tr.

(** Append an effect, stamped with the current clock. *)
Definition emit (e : effect) (s : state) : state :=
  with_trace (trace s ++ [(clock s, e)]) s.

(** ** State-and-exception monad *)

Definition M (A : Type) : Type := state -> state * (A + exn).

Definition ret {A : Type} (a : A) : M A := fun s => (s, inl a).

Definition raise {A : Type} (e : exn) : M A := fun s => (s, inr e).

Definition bind {A B : Type} (m : M A) (k : A -> M B) : M B :=
  fun s =>
    match m s with
    | (s', inl a) => k a s'
    | (s', inr e) => (s', inr e)
    end.

(** [try: body  except C as e: on_exn e], where [catches] decides
    [isinstance(e, C)]. *)
Definition try_except {A : Type} (body : M A) (catches : exn -> bool)
    (on_exn : exn -> M A) : M A :=
  fun s =>
    match body s with
    | (s', inr e) => if catches e then on_exn e s' else (s', inr e)
    | r => r
    end.

(** The result of an operation that touches no attribute. *)
Definition lift {A : Type} (r : A + exn) : M A := fun s => (s, r).

Definition gets {A : Type} (f : state -> A) : M A := fun s => (s, inl (f s)).

Definition modify (f : state -> state) : M unit := fun s => (f s, inl tt).

#[global] Instance M_ret : MRet M := @ret.
#[global] Instance M_bind : MBind M := fun A B k m => bind m k.
#[global] Instance M_throw : MThrow exn M := @raise.

(** [isinstance(e, Exception)]: every exception of the model. *)
Definition Exception (e : exn) : bool := true.

(** [isinstance(e, psutil.NoSuchProcess)]; [ZombieProcess] derives from it. *)
Definition is_NoSuchProcess (e : exn) : bool :=
  match e with
  | NoSuchProcess | ZombieProcess => true
  | _ => false
  end.

(** [self.logger.log(text, lvl)] *)
Definition log (text : list piece) (lvl : level) : M unit :=
  modify (emit (Log lvl text)).

(** [self.server_ready.set()] on the [threading.Event]; the effect records
    who called it and whether the flag was already set. *)
Definition server_ready_set (who : setter) : M unit :=
  modify (fun s => with_server_ready true (emit (ReadySet who (server_ready s)) s)).

(** [self.completions_available.set()] *)
Definition completions_available_set : M unit :=
  modify (fun s => with_completions_available true (emit CompletionsSet s)).

(** [time.time()] *)
Definition time_time : M Z := gets clock.

Definition seconds (n : Z) : Z := n * 1000.

(** ** Notification handlers (closures of [_start_server]) *)

Definition register_capability_handler (params : json) : M unit := mret tt.

Definition do_nothing (params : json) : M unit := mret tt.

Definition readiness_signals : list string :=
  [ "Started Erlang LS";
    "server started";
    "initialized";
    "ready to serve requests";
    "compilation finished";
    "indexing complete" ].

Definition failure_words : list string := ["error"; "failed"; "timeout"; "crash"].

Definition completion_words : list string := ["initialized"; "ready"; "complete"].

(** The [for signal in readiness_signals] loop with its [break]. *)
Fixpoint for_signal (signals : list string) (message_text : json)
    (message_lower : string) : M unit :=
  match signals with
  | [] => mret tt
  | signal :: rest =>
      if PyStr.contains (PyStr.lower signal) message_lower then
        log [Lit "Erlang LS readiness signal detected: "; Val message_text] INFO;;
        server_ready_set by_log_message
      else for_signal rest message_text message_lower
  end.

Definition window_log_message (msg : json) : M unit :=
  message_text ← lift (Py.get msg "message" (JStr ""));
  log [Lit "LSP: window/logMessage: "; Val message_text] INFO;;
  message_lower ← lift (Py.lower message_text);
  for_signal readiness_signals message_text message_lower;;
  if PyStr.any_in failure_words message_lower then
    log [Lit "Erlang LS potential issue: "; Val message_text] WARNING
  else mret tt.

Definition check_server_ready (params : json) : M unit :=
  value ← lift (Py.get params "value" (JDict []));
  kind ← lift (Py.get value "kind" JNull);
  if Py.eq_str kind "end" then
    message ← lift (Py.get value "message" (JStr ""));
    message_lower ← lift (Py.lower message);
    if PyStr.any_in completion_words message_lower then
      log [Lit "Erlang LS initialization progress completed"] INFO;;
      already ← gets server_ready;
      if negb already then server_ready_set by_progress else mret tt
    else mret tt
  else mret tt.

Definition run_handler (h : handler) (params : json) : M unit :=
  match h with
  | H_register_capability_handler => register_capability_handler params
  | H_window_log_message => window_log_message params
  | H_check_server_ready => check_server_ready params
  | H_do_nothing => do_nothing params
  end.

(** ** The transport's reader thread

    It runs concurrently with the caller of [_start_server].  The model
    orders the two by the clock: a notification the child emits at time [t]
    is handed to its handler when the clock reaches [t].  An exception a
    handler raises stays on the reader thread; what the handler did before
    raising remains. *)

Definition tick_to (t : Z) (s : state) : state := with_clock (Z.max (clock s) t) s.

Definition dispatch (n : notification) (s : state) : state :=
  match handlers s !! n.1 with
  | Some h => fst (run_handler h n.2 s)
  | None => s
  end.

Fixpoint deliver_until (t_end : Z) (pending : list (Z * notification))
    (s : state) : state :=
  match pending with
  | [] => with_inbox [] s
  | (t, n) :: rest =>
      if t <=? t_end then deliver_until t_end rest (dispatch n (tick_to t s))
      else with_inbox pending s
  end.

(** The calling thread blocks for [d]: the reader thread delivers what the
    child emits meanwhile. *)
Definition elapse (d : Z) : M unit :=
  modify (fun s => tick_to (clock s + d) (deliver_until (clock s + d) (inbox s) s)).

(** [time.sleep(d)] *)
Definition time_sleep (d : Z) : M unit :=
  modify (emit (Sleep d));; elapse d.

(** [self.server_ready.wait(timeout=...)]: returns [True] as soon as the flag
    is set, [False] when the deadline passes with the flag still clear. *)
Fixpoint wait_until (deadline : Z) (pending : list (Z * notification))
    (s : state) : state * bool :=
  if server_ready s then (with_inbox pending s, true)
  else
    match pending with
    | [] => (with_inbox [] (tick_to deadline s), false)
    | (t, n) :: rest =>
        if t <? deadline then wait_until deadline rest (dispatch n (tick_to t s))
        else (with_inbox pending (tick_to deadline s), false)
    end.

Definition server_ready_wait (timeout : Z) : M bool :=
  fun s =>
    let '(s', signaled) := wait_until (clock s + timeout) (inbox s) s in
    (s', inl signaled).

(** ** The environment the process runs in *)

Record Environ : Type := {
  environ : gmap string string;      (* os.environ *)
  uname_sysname : option string      (* os.uname().sysname; None without os.uname *)
}.

Definition getenv (os : Environ) (name : string) : option string :=
  environ os !! name.

(** [os.getenv("CI") == "true" or os.getenv("GITHUB_ACTIONS") == "true"] *)
Definition is_ci (os : Environ) : bool :=
  bool_decide (getenv os "CI" = Some "true")
  || bool_decide (getenv os "GITHUB_ACTIONS" = Some "true").

(** [os.uname().sysname == "Darwin" if hasattr(os, "uname") else False] *)
Definition is_macos (os : Environ) : bool :=
  match uname_sysname os with
  | Some sysname => String.eqb sysname "Darwin"
  | None => false
  end.

(** ** Construction *)

(** [isinstance(e, (subprocess.SubprocessError, FileNotFoundError))] *)
Definition is_subprocess_failure (e : exn) : bool :=
  match e with
  | SubprocessError _ | TimeoutExpired | FileNotFoundError _ => true
  | _ => false
  end.

(** [_check_erlang_installation]: [erl] is what
    [subprocess.run(["erl", "-version"], ...)] does: it returns with a
    return code or it raises.  Only [SubprocessError] and
    [FileNotFoundError] are caught; any other exception leaves the
    function. *)
Definition _check_erlang_installation (erl : Z + exn) : bool + exn :=
  match erl with
  | inl returncode => inl (returncode =? 0)
  | inr e => if is_subprocess_failure e then inl false else inr e
  end.

(** The per-request timeout chosen in [__init__]. *)
Definition init_request_timeout (ci : bool) : Z :=
  if ci then seconds 45 else seconds 60.

(** [which] is the result of [shutil.which("erlang_ls")]; [now] and
    [emissions] describe the surroundings the new object lives in. *)
Definition __init__ (root : string) (os : Environ) (which : option string)
    (erl : Z + exn) (now : Z) (emissions : list (Z * notification))
    : state + exn :=
  match which with
  | None | Some EmptyString =>
      inr (RuntimeError "Erlang LS not found. Install from: https://github.com/erlang-ls/erlang_ls")
  | Some erlang_ls_path =>
      match _check_erlang_installation erl with
      | inr e => inr e
      | inl false =>
          inr (RuntimeError "Erlang/OTP not found. Install from: https://www.erlang.org/downloads")
      | inl true =>
        let erlang_ls_cmd := [erlang_ls_path; "--transport"; "stdio"] in
        let erlang_ls_cmd :=
          if is_ci os then erlang_ls_cmd ++ ["--log-level"; "info"]
          else erlang_ls_cmd in
        inl {| repository_root_path := root;
               launch_cmd := erlang_ls_cmd;
               request_timeout := init_request_timeout (is_ci os);
               server_ready := false;
               completions_available := false;
               _request_count := 0;
               _timeout_count := 0;
               _last_timeout_time := 0;
               handlers := ∅;
               clock := now;
               inbox := emissions;
               trace := [] |}
      end
  end.

(** ** Process watchdog *)

(** What psutil and the process object answer; each is asked at most once. *)
Record Psutil : Type := {
  server_process : option Z;   (* pid of self.server.process, if there is one *)
  pid_exists_result : bool + exn;
  Process_result : unit + exn;
  cpu_percent_result : Q + exn;
  terminate_result : unit + exn;
  is_running_result : bool + exn;
  kill_result : unit + exn
}.

Definition ps {A : Type} (c : ps_call) (r : A + exn) : M A :=
  modify (emit (Ps c));; lift r.

(** [cpu_percent < 1.0] *)
Definition below_one (cpu_percent : Q) : bool := negb (Qle_bool 1 cpu_percent).

Definition _force_kill_if_stuck (psutil : Psutil) : M unit :=
  try_except
    (match server_process psutil with
     | Some pid =>
         alive ← ps (ps_pid_exists pid) (pid_exists_result psutil);
         if alive : bool then
           ps (ps_Process pid) (Process_result psutil);;
           modify (emit (Ps ps_cpu_percent));;
           elapse 100;;
           cpu_percent ← lift (cpu_percent_result psutil);
           log [Lit "Erlang LS process "; Pid pid; Lit " CPU usage: ";
                Percent cpu_percent; Lit "%"] INFO;;
           if below_one cpu_percent then
             log [Lit "Force killing potentially deadlocked Erlang LS process ";
                  Pid pid] WARNING;;
             try_except
               (ps ps_terminate (terminate_result psutil);;
                time_sleep (seconds 2);;
                running ← ps ps_is_running (is_running_result psutil);
                if running : bool then ps ps_kill (kill_result psutil)
                else mret tt)
               is_NoSuchProcess
               (fun _ => mret tt)
           else mret tt
         else mret tt
     | None => mret tt
     end)
    Exception
    (fun e => log [Lit "Error in force kill check: "; Exc e] DEBUG).

(** ** Start-up *)

(** What the transport answers during the handshake. *)
Record Transport : Type := {
  start_result : unit + exn;
  initialize_latency : Z;
  initialize_result : json + exn;
  initialized_result : unit + exn
}.

Definition register (c : server_call) (method : string) (h : handler) : M unit :=
  modify (fun s => with_handlers (<[method := h]> (handlers s)) (emit (Server c) s)).

Definition server_on_request (method : string) (h : handler) : M unit :=
  register (on_request method h) method h.

Definition server_on_notification (method : string) (h : handler) : M unit :=
  register (on_notification method h) method h.

Definition server_start (tr : Transport) : M unit :=
  modify (emit (Server start));; lift (start_result tr).

Definition server_send_initialize (tr : Transport) (params : json) : M json :=
  modify (emit (Server (send_initialize params)));;
  elapse (initialize_latency tr);;
  lift (initialize_result tr).

Definition server_notify_initialized (tr : Transport) (params : json) : M unit :=
  modify (emit (Server (notify_initialized params)));;
  lift (initialized_result tr).

Definition dynamic_registration : json := JDict [("dynamicRegistration", JBool true)].

Definition initialize_params (root : string) : json :=
  JDict
    [ ("processId", JNull);
      ("rootPath", JStr root);
      ("rootUri", JStr ("file://" +:+ root));
      ("capabilities",
        JDict
          [ ("textDocument",
              JDict
                [ ("synchronization", JDict [("didSave", JBool true)]);
                  ("completion", dynamic_registration);
                  ("definition", dynamic_registration);
                  ("references", dynamic_registration);
                  ("documentSymbol", dynamic_registration);
                  ("hover", dynamic_registration) ]) ]) ].

(** The readiness-wait budget and its description. *)
Definition ready_timeout (ci macos : bool) : Z * string :=
  if ci && macos then (seconds 240, "macOS CI")
  else if ci then (seconds 180, "CI")
  else (seconds 60, "local").

(** Settling delay after a readiness signal. *)
Definition settling_time (ci : bool) : Z := if ci then seconds 15 else seconds 5.

(** Settling delay after a readiness timeout. *)
Definition basic_settling_time (ci : bool) : Z := if ci then seconds 20 else seconds 10.

(** The handshake: the [try] statement of [_start_server]. *)
Definition handshake (tr : Transport) (params : json) : M unit :=
  try_except
    (init_response ← server_send_initialize tr params;
     has_capabilities ← lift (Py.contains "capabilities" init_response);
     (if has_capabilities : bool then
        capabilities ← lift (Py.getitem init_response "capabilities");
        names ← lift (Py.keys capabilities);
        log [Lit "Erlang LS capabilities: "; Keys names] INFO
      else mret tt);;
     server_notify_initialized tr (JDict []);;
     completions_available_set;;
     log [Lit "Erlang LS initialization completed successfully"] INFO)
    Exception
    (fun e =>
       log [Lit "Erlang LS initialization failed: "; Exc e] ERROR;;
       completions_available_set;;
       mthrow e).

(** The readiness wait and the settling period that follows it. *)
Definition await_readiness (os : Environ) : M unit :=
  let ci := is_ci os in
  let macos := is_macos os in
  let '(timeout, env_desc) := ready_timeout ci macos in
  log [Lit "Waiting up to "; Millis timeout;
       Lit " seconds for Erlang LS readiness ("; Lit env_desc;
       Lit " environment)..."] INFO;;
  signaled ← server_ready_wait timeout;
  if signaled : bool then
    log [Lit "Erlang LS is ready and available for requests"] INFO;;
    log [Lit "Allowing "; Millis (settling_time ci);
         Lit " seconds for Erlang LS indexing to complete..."] INFO;;
    time_sleep (settling_time ci);;
    log [Lit "Erlang LS settling period complete"] INFO
  else
    log [Lit "Erlang LS readiness timeout reached after "; Millis timeout;
         Lit "s, proceeding anyway (common in CI)"] WARNING;;
    server_ready_set by_timeout;;
    log [Lit "Allowing "; Millis (basic_settling_time ci);
         Lit " seconds for basic Erlang LS initialization..."] INFO;;
    time_sleep (basic_settling_time ci);;
    log [Lit "Basic Erlang LS initialization period complete"] INFO.

(** The first half of [_start_server]: handler registration, process start
    and handshake. *)
Definition launch_and_handshake (tr : Transport) : M unit :=
  server_on_request "client/registerCapability" H_register_capability_handler;;
  server_on_notification "window/logMessage" H_window_log_message;;
  server_on_notification "$/progress" H_check_server_ready;;
  server_on_notification "window/workDoneProgress/create" H_do_nothing;;
  server_on_notification "$/workDoneProgress" H_do_nothing;;
  server_on_notification "textDocument/publishDiagnostics" H_do_nothing;;
  log [Lit "Starting Erlang LS server process"] INFO;;
  server_start tr;;
  root ← gets repository_root_path;
  log [Lit "Sending initialize request to Erlang LS"] INFO;;
  handshake tr (initialize_params root).

Definition _start_server (os : Environ) (tr : Transport) : M unit :=
  launch_and_handshake tr;;
  await_readiness os.

(** ** Request wrappers *)

(** What the inherited implementation does with one call: how long it
    blocks and what it returns or raises.  It does not touch the
    attributes this class adds. *)
Record SuperCall : Type := {
  latency : Z;
  outcome : json + exn
}.

Definition super_request (name : string) (call : SuperCall) : M json :=
  modify (emit (Server (call_super name)));;
  elapse (latency call);;
  lift (outcome call).

(** [elapsed] is the difference of two readings of the model's millisecond
    clock, compared with 10 s; the code subtracts two [time.time()] floats,
    so the two agree except for a call that takes 10 s to within rounding. *)
Definition request_containing_symbol (call : SuperCall) : M json :=
  start_time ← time_time;
  try_except
    (result ← super_request "request_containing_symbol" call;
     now ← time_time;
     let elapsed := now - start_time in
     (if elapsed >? seconds 10 then
        log [Lit "Slow Erlang LS containing symbol request: "; Millis elapsed;
             Lit "s"] INFO
      else mret tt);;
     mret result)
    Exception
    (fun e =>
       now ← time_time;
       let elapsed := now - start_time in
       log [Lit "Erlang LS containing symbol request failed after ";
            Millis elapsed; Lit "s: "; Exc e] WARNING;;
       mthrow e).

(** [elapsed] as in [request_containing_symbol]. *)
Definition request_referencing_symbols (call : SuperCall) : M json :=
  start_time ← time_time;
  try_except
    (result ← super_request "request_referencing_symbols" call;
     now ← time_time;
     let elapsed := now - start_time in
     (if elapsed >? seconds 10 then
        log [Lit "Slow Erlang LS referencing symbols request: "; Millis elapsed;
             Lit "s"] INFO
      else mret tt);;
     mret result)
    Exception
    (fun e =>
       now ← time_time;
       let elapsed := now - start_time in
       log [Lit "Erlang LS referencing symbols request failed after ";
            Millis elapsed; Lit "s: "; Exc e] WARNING;;
       mthrow e).

(** ** A few runs *)

Definition local_env : Environ := {| environ := ∅; uname_sysname := Some "Linux" |}.

Definition ci_env : Environ :=
  {| environ := {[ "CI" := "true" ]}; uname_sysname := Some "Linux" |}.

Definition macos_ci_env : Environ :=
  {| environ := {[ "GITHUB_ACTIONS" := "true" ]}; uname_sysname := Some "Darwin" |}.

Definition fresh (os : Environ) (emissions : list (Z * notification)) : state :=
  match __init__ "/repo" os (Some "/usr/bin/erlang_ls") (inl 0) 0 emissions with
  | inl s => s
  | inr _ =>
      mkState "" [] 0 false false 0 0 0 ∅ 0 [] []
  end.

Definition good_transport : Transport :=
  {| start_result := inl tt;
     initialize_latency := 300;
     initialize_result := inl (JDict [("capabilities", JDict [("hoverProvider", JBool true)])]);
     initialized_result := inl tt |}.

Definition failing_transport : Transport :=
  {| start_result := inl tt;
     initialize_latency := 300;
     initialize_result := inr (OtherError "connection closed");
     initialized_result := inl tt |}.

Definition log_message (text : string) : notification :=
  ("window/logMessage", JDict [("type", JNum 3); ("message", JStr text)]).

Definition progress (kind text : string) : notification :=
  ("$/progress", JDict [("token", JStr "t");
                        ("value", JDict [("kind", JStr kind); ("message", JStr text)])]).

(** * Properties *)

(** ** Strings *)

Module PyStrFacts.
Import PyStr.

Lemma startswith_spec (needle hay : string) :
  startswith needle hay = true <-> exists post, hay = String.append needle post.
Proof.
  revert hay. induction needle as [|a n IH]; intros hay; simpl.
  - split; [intros _; exists hay; reflexivity | reflexivity].
  - destruct hay as [|b h].
    + split; [discriminate | intros [post H]; discriminate].
    + destruct (Ascii.eqb a b) eqn:E.
      * apply Ascii.eqb_eq in E. subst b. rewrite IH.
        split; intros [post H]; exists post; [rewrite H | injection H]; auto.
      * apply Ascii.eqb_neq in E.
        split; [discriminate | intros [post H]; injection H; congruence].
Qed.

Lemma contains_spec (needle hay : string) :
  contains needle hay = true <-> occurs_in needle hay.
Proof.
  unfold occurs_in. induction hay as [|b h IH]; simpl.
  - rewrite orb_false_r, startswith_spec. split.
    + intros [post H]. exists EmptyString, post. exact H.
    + intros [[|c pre] [post H]]; [exists post; exact H | discriminate].
  - rewrite orb_true_iff, startswith_spec, IH. split.
    + intros [[post H] | [pre [post H]]].
      * exists EmptyString, post. exact H.
      * exists (String b pre), post. simpl. rewrite H. reflexivity.
    + intros [[|c pre] [post H]].
      * left. exists post. exact H.
      * right. exists pre, post. simpl in H. injection H. auto.
Qed.

Lemma any_in_spec (words : list string) (text : string) :
  any_in words text = true <-> exists word, In word words /\ occurs_in word text.
Proof.
  unfold any_in. rewrite existsb_exists.
  split; intros [w [Hw H]]; exists w; split; auto; apply contains_spec; exact H.
Qed.

End PyStrFacts.

(** ** Unfolding the monad *)

Ltac run_monad :=
  unfold mbind, M_bind, bind, mret, M_ret, ret, mthrow, M_throw, raise,
    lift, gets, modify, try_except in *.

(** ** The primary channel *)

(** Some readiness phrase occurs in the lower-cased text. *)
Definition matches_readiness (message_lower : string) : bool :=
  PyStr.any_in (map PyStr.lower readiness_signals) message_lower.

Lemma for_signal_eq (signals : list string) (mt : json) (ml : string) (s : state) :
  for_signal signals mt ml s =
  if PyStr.any_in (map PyStr.lower signals) ml then
    (with_server_ready true
       (emit (ReadySet by_log_message (server_ready s))
          (emit (Log INFO [Lit "Erlang LS readiness signal detected: "; Val mt]) s)),
     inl tt)
  else (s, inl tt).
Proof.
  induction signals as [|sig rest IH]; simpl; [reflexivity|].
  destruct (PyStr.contains (PyStr.lower sig) ml); simpl; [reflexivity | exact IH].
Qed.

Lemma window_log_message_text (msg : json) (text : string) (s : state) :
  Py.get msg "message" (JStr "") = inl (JStr text) ->
  window_log_message msg s =
  let s1 := emit (Log INFO [Lit "LSP: window/logMessage: "; Val (JStr text)]) s in
  let s2 :=
    if matches_readiness (PyStr.lower text) then
      with_server_ready true
        (emit (ReadySet by_log_message (server_ready s1))
           (emit (Log INFO [Lit "Erlang LS readiness signal detected: ";
                            Val (JStr text)]) s1))
    else s1 in
  let s3 :=
    if PyStr.any_in failure_words (PyStr.lower text) then
      emit (Log WARNING [Lit "Erlang LS potential issue: "; Val (JStr text)]) s2
    else s2 in
  (s3, inl tt).
Proof.
  intros Hget. unfold window_log_message, log. run_monad. rewrite Hget.
  cbn [Py.lower]. rewrite for_signal_eq. fold (matches_readiness (PyStr.lower text)).
  destruct (matches_readiness (PyStr.lower text));
    destruct (PyStr.any_in failure_words (PyStr.lower text)); reflexivity.
Qed.

(** ** What every operation preserves *)

(** The calls of [server_ready.set()] that found the flag clear. *)
Definition transitions (tr : list (Z * effect)) : list (Z * setter) :=
  omap (fun te => match te.2 with
                  | ReadySet who false => Some (te.1, who)
                  | _ => None
                  end) tr.

Definition potential (s : state) : nat :=
  (length (transitions (trace s)) + if server_ready s then 0 else 1)%nat.

Definition telemetry (s : state) : Z * Z * Z :=
  (_request_count s, _timeout_count s, _last_timeout_time s).

Record evolves (s s' : state) : Prop := {
  ev_ready : server_ready s = true -> server_ready s' = true;
  ev_potential : potential s' = potential s;
  ev_completions : completions_available s = true -> completions_available s' = true;
  ev_telemetry : telemetry s' = telemetry s;
  ev_request_timeout : request_timeout s' = request_timeout s;
  ev_clock : clock s <= clock s';
  ev_trace : trace s `prefix_of` trace s'
}.

Lemma evolves_refl (s : state) : evolves s s.
Proof. split; auto; reflexivity. Qed.

Lemma evolves_trans (s1 s2 s3 : state) :
  evolves s1 s2 -> evolves s2 s3 -> evolves s1 s3.
Proof.
  intros [] []. split; auto; try congruence; try lia.
  etransitivity; eassumption.
Qed.

Lemma transitions_snoc (tr : list (Z * effect)) (t : Z) (e : effect) :
  transitions (tr ++ [(t, e)]) =
  transitions tr ++ match e with ReadySet who false => [(t, who)] | _ => [] end.
Proof.
  unfold transitions. rewrite omap_app. f_equal.
  destruct e as [| | | | who []| ]; reflexivity.
Qed.

Lemma evolves_emit (e : effect) (s : state) :
  (forall who b, e <> ReadySet who b) -> e <> CompletionsSet ->
  evolves s (emit e s).
Proof.
  intros Hr _. split; simpl; auto; try lia.
  - unfold potential; simpl. rewrite transitions_snoc.
    destruct e as [| | | | who []|]; try (rewrite app_nil_r; reflexivity).
    exfalso; eapply Hr; reflexivity.
  - apply prefix_app_r. reflexivity.
Qed.

Lemma evolves_ready_set (who : setter) (s : state) :
  evolves s (with_server_ready true (emit (ReadySet who (server_ready s)) s)).
Proof.
  split; simpl; auto; try lia.
  - unfold potential; simpl. rewrite transitions_snoc.
    destruct (server_ready s); rewrite length_app; simpl; lia.
  - apply prefix_app_r. reflexivity.
Qed.

Lemma evolves_completions_set (s : state) :
  evolves s (with_completions_available true (emit CompletionsSet s)).
Proof.
  split; simpl; auto; try lia.
  - unfold potential; simpl. rewrite transitions_snoc, app_nil_r. reflexivity.
  - apply prefix_app_r. reflexivity.
Qed.

Lemma evolves_with_inbox (q : list (Z * notification)) (s : state) :
  evolves s (with_inbox q s).
Proof. split; simpl; auto; try lia; reflexivity. Qed.

Lemma evolves_tick (t : Z) (s : state) : evolves s (tick_to t s).
Proof. split; simpl; auto; try lia; reflexivity. Qed.

Lemma evolves_with_handlers (h : gmap string handler) (s : state) :
  evolves s (with_handlers h s).
Proof. split; simpl; auto; try lia; reflexivity. Qed.

(** ** Computations that respect a preorder on states *)

Section Respects.

Context (R : relation state) `{!PreOrder R}.

(** Every run of [m] takes a state to an [R]-related one. *)
Definition respects {A : Type} (m : M A) : Prop := forall s, R s (m s).1.

Lemma respects_ret {A : Type} (a : A) : respects (mret a).
Proof. intros s. reflexivity. Qed.

Lemma respects_throw {A : Type} (e : exn) : respects (mthrow e : M A).
Proof. intros s. reflexivity. Qed.

Lemma respects_lift {A : Type} (r : A + exn) : respects (lift r).
Proof. intros s. reflexivity. Qed.

Lemma respects_gets {A : Type} (f : state -> A) : respects (gets f).
Proof. intros s. reflexivity. Qed.

Lemma respects_bind {A B : Type} (m : M A) (k : A -> M B) :
  respects m -> (forall a, respects (k a)) -> respects (m ≫= k).
Proof.
  intros Hm Hk s. run_monad. specialize (Hm s).
  destruct (m s) as [s1 [a|e]]; simpl in *; [|exact Hm].
  etransitivity; [exact Hm | apply Hk].
Qed.

Lemma respects_try {A : Type} (body : M A) (catches : exn -> bool)
    (on_exn : exn -> M A) :
  respects body -> (forall e, respects (on_exn e)) ->
  respects (try_except body catches on_exn).
Proof.
  intros Hb Hh s. run_monad. specialize (Hb s).
  destruct (body s) as [s1 [a|e]]; simpl in *; [exact Hb|].
  destruct (catches e); [|exact Hb].
  etransitivity; [exact Hb | apply Hh].
Qed.

Lemma respects_modify (f : state -> state) :
  (forall s, R s (f s)) -> respects (modify f).
Proof. intros H s. apply H. Qed.

End Respects.

Create HintDb respects.
#[export] Hint Resolve respects_ret respects_throw respects_lift respects_gets
  : respects.

(** Walk through a computation: binds, handlers and branches. *)
Ltac respects_step :=
  match goal with
  | |- PreOrder _ => typeclasses eauto
  | |- respects _ (_ ≫= _) => apply respects_bind; [ .. | intros ?]
  | |- respects _ (try_except _ _ _) => apply respects_try; [ .. | intros ?]
  | |- respects _ (if ?b then _ else _) => destruct b
  | |- respects _ (match ?x with _ => _ end) => destruct x
  | |- respects _ (let '(_, _) := ?x in _) => destruct x
  | |- respects _ _ => solve [auto with respects typeclass_instances]
  end.

Ltac walk := repeat respects_step.

#[export] Instance evolves_preorder : PreOrder evolves.
Proof. split; [exact evolves_refl | exact evolves_trans]. Qed.

(** A computation every run of which is an evolution of its start state. *)
Abbreviation steady := (respects evolves).

Lemma steady_emit (e : effect) :
  (forall who b, e <> ReadySet who b) -> e <> CompletionsSet ->
  steady (modify (emit e)).
Proof. intros H1 H2 s. apply evolves_emit; assumption. Qed.

Lemma steady_log (text : list piece) (lvl : level) : steady (log text lvl).
Proof. apply steady_emit; discriminate. Qed.

Lemma steady_server_ready_set (who : setter) : steady (server_ready_set who).
Proof. intros s. apply evolves_ready_set. Qed.

Lemma steady_completions_available_set : steady completions_available_set.
Proof. intros s. apply evolves_completions_set. Qed.

Lemma steady_time_time : steady time_time.
Proof. apply respects_gets; typeclasses eauto. Qed.

#[export] Hint Resolve steady_log steady_server_ready_set
  steady_completions_available_set steady_time_time : respects.
#[export] Hint Extern 1 (steady (modify (emit _))) =>
  (apply steady_emit; discriminate) : respects.

Lemma steady_for_signal (signals : list string) (mt : json) (ml : string) :
  steady (for_signal signals mt ml).
Proof. induction signals; simpl; walk. Qed.
#[export] Hint Resolve steady_for_signal : respects.

Lemma steady_run_handler (h : handler) (params : json) : steady (run_handler h params).
Proof.
  destruct h; simpl;
    unfold register_capability_handler, window_log_message, check_server_ready,
      do_nothing; walk.
Qed.
#[export] Hint Resolve steady_run_handler : respects.

Lemma evolves_dispatch (n : notification) (s : state) : evolves s (dispatch n s).
Proof.
  unfold dispatch. destruct (handlers s !! n.1); [|apply evolves_refl].
  apply steady_run_handler.
Qed.

Lemma evolves_deliver_until (t_end : Z) (pending : list (Z * notification)) (s : state) :
  evolves s (deliver_until t_end pending s).
Proof.
  revert s. induction pending as [|[t n] rest IH]; intros s; simpl.
  - apply evolves_with_inbox.
  - destruct (t <=? t_end); [|apply evolves_with_inbox].
    eapply evolves_trans; [|apply IH].
    eapply evolves_trans; [apply evolves_tick | apply evolves_dispatch].
Qed.

Lemma steady_elapse (d : Z) : steady (elapse d).
Proof.
  intros s. unfold elapse, modify; simpl.
  eapply evolves_trans; [apply evolves_deliver_until | apply evolves_tick].
Qed.
#[export] Hint Resolve steady_elapse : respects.

Lemma steady_time_sleep (d : Z) : steady (time_sleep d).
Proof. unfold time_sleep. walk. Qed.
#[export] Hint Resolve steady_time_sleep : respects.

Lemma evolves_wait_until (deadline : Z) (pending : list (Z * notification)) (s : state) :
  evolves s (wait_until deadline pending s).1.
Proof.
  revert s. induction pending as [|[t n] rest IH]; intros s; simpl.
  - destruct (server_ready s); simpl; [apply evolves_with_inbox|].
    eapply evolves_trans; [apply evolves_tick | apply evolves_with_inbox].
  - destruct (server_ready s); simpl; [apply evolves_with_inbox|].
    destruct (t <? deadline); simpl.
    + eapply evolves_trans; [|apply IH].
      eapply evolves_trans; [apply evolves_tick | apply evolves_dispatch].
    + eapply evolves_trans; [apply evolves_tick | apply evolves_with_inbox].
Qed.

Lemma steady_server_ready_wait (timeout : Z) : steady (server_ready_wait timeout).
Proof.
  intros s. unfold server_ready_wait.
  pose proof (evolves_wait_until (clock s + timeout) (inbox s) s) as H.
  destruct (wait_until (clock s + timeout) (inbox s) s); exact H.
Qed.
#[export] Hint Resolve steady_server_ready_wait : respects.

Lemma steady_ps {A : Type} (c : ps_call) (r : A + exn) : steady (ps c r).
Proof. unfold ps. walk. Qed.
#[export] Hint Resolve steady_ps : respects.

Lemma steady_force_kill_if_stuck (psutil : Psutil) : steady (_force_kill_if_stuck psutil).
Proof. unfold _force_kill_if_stuck. walk. Qed.

Lemma steady_register (c : server_call) (method : string) (h : handler) :
  steady (register c method h).
Proof.
  intros s. unfold register, modify; simpl.
  eapply evolves_trans; [|apply evolves_with_handlers].
  apply evolves_emit; discriminate.
Qed.
#[export] Hint Resolve steady_register : respects.

Lemma steady_handshake (tr : Transport) (params : json) : steady (handshake tr params).
Proof.
  unfold handshake, server_send_initialize, server_notify_initialized. walk.
Qed.

Lemma steady_await_readiness (os : Environ) : steady (await_readiness os).
Proof. unfold await_readiness. walk. Qed.

Lemma steady_launch_and_handshake (tr : Transport) : steady (launch_and_handshake tr).
Proof.
  unfold launch_and_handshake, server_on_request, server_on_notification, server_start.
  pose proof steady_handshake. walk.
Qed.

Lemma steady_start_server (os : Environ) (tr : Transport) : steady (_start_server os tr).
Proof.
  unfold _start_server.
  pose proof steady_launch_and_handshake. pose proof steady_await_readiness. walk.
Qed.

Lemma steady_super_request (name : string) (call : SuperCall) :
  steady (super_request name call).
Proof. unfold super_request. walk. Qed.
#[export] Hint Resolve steady_super_request : respects.

Lemma steady_request_containing_symbol (call : SuperCall) :
  steady (request_containing_symbol call).
Proof. unfold request_containing_symbol. walk. Qed.

Lemma steady_request_referencing_symbols (call : SuperCall) :
  steady (request_referencing_symbols call).
Proof. unfold request_referencing_symbols. walk. Qed.

(** ** Runs of the object *)

(** What can happen to the object: the reader thread hands a notification to
    its handler, a handler is called directly, or a method runs. *)
Inductive operation : Type :=
| Notify (t : Z) (n : notification)
| CallHandler (h : handler) (params : json)
| StartServer (os : Environ) (tr : Transport)
| ForceKillIfStuck (psutil : Psutil)
| RequestContainingSymbol (call : SuperCall)
| RequestReferencingSymbols (call : SuperCall).

Definition perform (op : operation) (s : state) : state :=
  match op with
  | Notify t n => dispatch n (tick_to t s)
  | CallHandler h params => (run_handler h params s).1
  | StartServer os tr => (_start_server os tr s).1
  | ForceKillIfStuck psutil => (_force_kill_if_stuck psutil s).1
  | RequestContainingSymbol call => (request_containing_symbol call s).1
  | RequestReferencingSymbols call => (request_referencing_symbols call s).1
  end.

Fixpoint run (ops : list operation) (s : state) : state :=
  match ops with
  | [] => s
  | op :: rest => run rest (perform op s)
  end.

(** The value of [server_ready] before the first operation and after each. *)
Fixpoint history (ops : list operation) (s : state) : list bool :=
  server_ready s ::
  match ops with
  | [] => []
  | op :: rest => history rest (perform op s)
  end.

(** Adjacent pairs [false, true] of a list of flag values. *)
Fixpoint count_rises (l : list bool) : nat :=
  match l with
  | a :: (b :: _) as r => ((if negb a && b then 1 else 0) + count_rises r)%nat
  | _ => 0%nat
  end.

(** Adjacent pairs [true, false]. *)
Fixpoint count_falls (l : list bool) : nat :=
  match l with
  | a :: (b :: _) as r => ((if a && negb b then 1 else 0) + count_falls r)%nat
  | _ => 0%nat
  end.

Lemma evolves_perform (op : operation) (s : state) : evolves s (perform op s).
Proof.
  destruct op; simpl.
  - eapply evolves_trans; [apply evolves_tick | apply evolves_dispatch].
  - apply steady_run_handler.
  - apply steady_start_server.
  - apply steady_force_kill_if_stuck.
  - apply steady_request_containing_symbol.
  - apply steady_request_referencing_symbols.
Qed.

Lemma evolves_run (ops : list operation) (s : state) : evolves s (run ops s).
Proof.
  revert s. induction ops as [|op rest IH]; intros s; simpl.
  - apply evolves_refl.
  - eapply evolves_trans; [apply evolves_perform | apply IH].
Qed.

Lemma history_shape (ops : list operation) (s : state) :
  exists l, history ops s = server_ready s :: l.
Proof. destruct ops; simpl; eauto. Qed.

Lemma history_counts (ops : list operation) (s : state) :
  count_falls (history ops s) = 0%nat /\
  (count_rises (history ops s) + (if server_ready s then 1 else 0)
   = if server_ready (run ops s) then 1 else 0)%nat.
Proof.
  revert s. induction ops as [|op rest IH]; intros s.
  - simpl. destruct (server_ready s); auto.
  - destruct (IH (perform op s)) as [IHf IHr].
    pose proof (ev_ready _ _ (evolves_perform op s)) as Hmono.
    pose proof (ev_ready _ _ (evolves_run rest (perform op s))) as Hmono'.
    destruct (history_shape rest (perform op s)) as [l Hl].
    change (history (op :: rest) s) with (server_ready s :: history rest (perform op s)).
    change (run (op :: rest) s) with (run rest (perform op s)).
    rewrite Hl in *.
    change (count_falls (server_ready s :: server_ready (perform op s) :: l))
      with ((if server_ready s && negb (server_ready (perform op s)) then 1 else 0)
            + count_falls (server_ready (perform op s) :: l))%nat.
    change (count_rises (server_ready s :: server_ready (perform op s) :: l))
      with ((if negb (server_ready s) && server_ready (perform op s) then 1 else 0)
            + count_rises (server_ready (perform op s) :: l))%nat.
    rewrite IHf.
    destruct (server_ready s), (server_ready (perform op s)),
      (server_ready (run rest (perform op s))); simpl in *;
      try (specialize (Hmono eq_refl)); try (specialize (Hmono' eq_refl));
      try discriminate; split; lia.
Qed.


(** ** What the reader thread can and cannot change *)

(** Effects a notification handler can cause. *)
Definition handler_made (te : Z * effect) : Prop :=
  match te.2 with
  | Log _ _ => True
  | ReadySet by_timeout _ => False
  | ReadySet _ _ => True
  | _ => False
  end.

(** A handler touches [server_ready] and the trace, nothing else. *)
Record handled (s s' : state) : Prop := {
  hd_completions : completions_available s' = completions_available s;
  hd_handlers : handlers s' = handlers s;
  hd_clock : clock s' = clock s;
  hd_inbox : inbox s' = inbox s;
  hd_trace : exists ex, trace s' = trace s ++ ex /\ Forall handler_made ex
}.

#[export] Instance handled_preorder : PreOrder handled.
Proof.
  split.
  - intros s. split; auto. exists []. rewrite app_nil_r. auto.
  - intros s1 s2 s3 [? ? ? ? [ex1 [E1 F1]]] [? ? ? ? [ex2 [E2 F2]]].
    split; try congruence.
    exists (ex1 ++ ex2). rewrite E2, E1, app_assoc. split; [reflexivity|].
    apply Forall_app; auto.
Qed.

Lemma handled_log (text : list piece) (lvl : level) : respects handled (log text lvl).
Proof.
  intros s. split; simpl; auto.
  exists [(clock s, Log lvl text)]. split; [reflexivity|].
  repeat constructor.
Qed.

Lemma handled_server_ready_set (who : setter) :
  who <> by_timeout -> respects handled (server_ready_set who).
Proof.
  intros Hwho s. split; simpl; auto.
  exists [(clock s, ReadySet who (server_ready s))]. split; [reflexivity|].
  repeat constructor. unfold handler_made; simpl. destruct who; auto.
Qed.

#[export] Hint Resolve handled_log : respects.
#[export] Hint Extern 1 (respects handled (server_ready_set _)) =>
  (apply handled_server_ready_set; discriminate) : respects.

Lemma handled_for_signal (signals : list string) (mt : json) (ml : string) :
  respects handled (for_signal signals mt ml).
Proof. induction signals; simpl; walk. Qed.
#[export] Hint Resolve handled_for_signal : respects.

Lemma handled_run_handler (h : handler) (params : json) :
  respects handled (run_handler h params).
Proof.
  destruct h; simpl;
    unfold register_capability_handler, window_log_message, check_server_ready,
      do_nothing; walk.
Qed.

(** Deliveries by the reader thread also advance the clock and consume the
    inbox. *)
Record delivered (s s' : state) : Prop := {
  dl_completions : completions_available s' = completions_available s;
  dl_handlers : handlers s' = handlers s;
  dl_clock : clock s <= clock s';
  dl_trace : exists ex, trace s' = trace s ++ ex /\ Forall handler_made ex
}.

#[export] Instance delivered_preorder : PreOrder delivered.
Proof.
  split.
  - intros s. split; auto; [lia|]. exists []. rewrite app_nil_r. auto.
  - intros s1 s2 s3 [? ? ? [ex1 [E1 F1]]] [? ? ? [ex2 [E2 F2]]].
    split; try congruence; [lia|].
    exists (ex1 ++ ex2). rewrite E2, E1, app_assoc. split; [reflexivity|].
    apply Forall_app; auto.
Qed.

Lemma handled_delivered (s s' : state) : handled s s' -> delivered s s'.
Proof. intros []. split; auto. lia. Qed.

Lemma delivered_tick (t : Z) (s : state) : delivered s (tick_to t s).
Proof.
  split; simpl; auto; [lia|]. exists []. rewrite app_nil_r. auto.
Qed.

Lemma delivered_with_inbox (q : list (Z * notification)) (s : state) :
  delivered s (with_inbox q s).
Proof.
  split; simpl; auto; [lia|]. exists []. rewrite app_nil_r. auto.
Qed.

Lemma delivered_dispatch (n : notification) (s : state) : delivered s (dispatch n s).
Proof.
  unfold dispatch. destruct (handlers s !! n.1); [|reflexivity].
  apply handled_delivered, handled_run_handler.
Qed.

Lemma clock_dispatch (n : notification) (s : state) : clock (dispatch n s) = clock s.
Proof.
  unfold dispatch. destruct (handlers s !! n.1); [|reflexivity].
  apply handled_run_handler.
Qed.

Lemma delivered_deliver_until (t_end : Z) (pending : list (Z * notification)) (s : state) :
  delivered s (deliver_until t_end pending s).
Proof.
  revert s. induction pending as [|[t n] rest IH]; intros s; simpl.
  - apply delivered_with_inbox.
  - destruct (t <=? t_end); [|apply delivered_with_inbox].
    etransitivity; [|apply IH].
    etransitivity; [apply delivered_tick | apply delivered_dispatch].
Qed.

Lemma clock_deliver_until (t_end : Z) (pending : list (Z * notification)) (s : state) :
  clock (deliver_until t_end pending s) <= Z.max (clock s) t_end.
Proof.
  revert s. induction pending as [|[t n] rest IH]; intros s; simpl.
  - lia.
  - destruct (t <=? t_end) eqn:E; simpl; [|lia].
    apply Z.leb_le in E. etransitivity; [apply IH|].
    rewrite clock_dispatch. simpl. lia.
Qed.

Lemma inbox_deliver_until (t_end : Z) (pending : list (Z * notification)) (s : state) :
  forall x, x ∈ inbox (deliver_until t_end pending s) -> x ∈ pending.
Proof.
  revert s. induction pending as [|[t n] rest IH]; intros s x; simpl.
  - auto.
  - destruct (t <=? t_end); simpl; [|auto].
    intros H. apply elem_of_cons. right. eapply IH, H.
Qed.

Lemma delivered_elapse (d : Z) : respects delivered (elapse d).
Proof.
  intros s. unfold elapse, modify; simpl.
  etransitivity; [apply delivered_deliver_until | apply delivered_tick].
Qed.

Lemma clock_elapse (d : Z) (s : state) : 0 <= d -> clock (elapse d s).1 = clock s + d.
Proof.
  intros Hd. unfold elapse, modify; simpl.
  pose proof (clock_deliver_until (clock s + d) (inbox s) s). lia.
Qed.

Lemma inbox_elapse (d : Z) (s : state) :
  forall x, x ∈ inbox (elapse d s).1 -> x ∈ inbox s.
Proof. unfold elapse, modify; simpl. apply inbox_deliver_until. Qed.

Lemma delivered_wait_until (deadline : Z) (pending : list (Z * notification)) (s : state) :
  delivered s (wait_until deadline pending s).1.
Proof.
  revert s. induction pending as [|[t n] rest IH]; intros s; simpl.
  - destruct (server_ready s); simpl; [apply delivered_with_inbox|].
    etransitivity; [apply delivered_tick | apply delivered_with_inbox].
  - destruct (server_ready s); simpl; [apply delivered_with_inbox|].
    destruct (t <? deadline); simpl.
    + etransitivity; [|apply IH].
      etransitivity; [apply delivered_tick | apply delivered_dispatch].
    + etransitivity; [apply delivered_tick | apply delivered_with_inbox].
Qed.

(** [wait] returns the flag. *)
Lemma wait_until_returns_flag (deadline : Z) (pending : list (Z * notification))
    (s : state) :
  (wait_until deadline pending s).2 = server_ready (wait_until deadline pending s).1.
Proof.
  revert s. induction pending as [|[t n] rest IH]; intros s; simpl.
  - destruct (server_ready s) eqn:E; simpl; auto.
  - destruct (server_ready s) eqn:E; simpl; auto.
    destruct (t <? deadline); simpl; auto.
Qed.

(** A wait that times out ends at the deadline. *)
Lemma wait_until_timeout_clock (deadline : Z) (pending : list (Z * notification))
    (s : state) :
  clock s <= deadline ->
  (wait_until deadline pending s).2 = false ->
  clock (wait_until deadline pending s).1 = deadline.
Proof.
  revert s. induction pending as [|[t n] rest IH]; intros s Hc; simpl.
  - destruct (server_ready s); simpl; [discriminate | lia].
  - destruct (server_ready s); simpl; [discriminate|].
    destruct (t <? deadline) eqn:E; simpl; [|lia].
    apply Z.ltb_lt in E. apply IH. rewrite clock_dispatch. simpl. lia.
Qed.

(** A wait that is satisfied returns no later than the deadline. *)
Lemma wait_until_clock_bound (deadline : Z) (pending : list (Z * notification))
    (s : state) :
  clock s <= deadline -> clock (wait_until deadline pending s).1 <= deadline.
Proof.
  revert s. induction pending as [|[t n] rest IH]; intros s Hc; simpl.
  - destruct (server_ready s); simpl; lia.
  - destruct (server_ready s); simpl; [lia|].
    destruct (t <? deadline) eqn:E; simpl; [|lia].
    apply Z.ltb_lt in E. apply IH. rewrite clock_dispatch. simpl. lia.
Qed.

(** ** Which notifications set the flag *)

#[global] Arguments PyStr.any_in : simpl never.

(** A [window/logMessage] payload whose text carries a readiness phrase. *)
Definition log_message_signals (msg : json) : bool :=
  match Py.get msg "message" (JStr "") with
  | inl (JStr text) => matches_readiness (PyStr.lower text)
  | _ => false
  end.

(** A [$/progress] payload of kind "end" whose message carries a completion
    word. *)
Definition progress_signals (params : json) : bool :=
  match Py.get params "value" (JDict []) with
  | inl value =>
      match Py.get value "kind" JNull with
      | inl kind =>
          Py.eq_str kind "end" &&
          match Py.get value "message" (JStr "") with
          | inl (JStr message) => PyStr.any_in completion_words (PyStr.lower message)
          | _ => false
          end
      | inr _ => false
      end
  | inr _ => false
  end.

(** The handler table once [_start_server] has registered its handlers with a
    transport that had none. *)
Definition registered (table : gmap string handler) : gmap string handler :=
  <["textDocument/publishDiagnostics" := H_do_nothing]>
    (<["$/workDoneProgress" := H_do_nothing]>
       (<["window/workDoneProgress/create" := H_do_nothing]>
          (<["$/progress" := H_check_server_ready]>
             (<["window/logMessage" := H_window_log_message]>
                (<["client/registerCapability" := H_register_capability_handler]>
                   table))))).

Definition startup_handlers : gmap string handler := registered ∅.

Definition is_readiness_signal (n : notification) : bool :=
  match startup_handlers !! n.1 with
  | Some H_window_log_message => log_message_signals n.2
  | Some H_check_server_ready => progress_signals n.2
  | _ => false
  end.

(** Spelled out: only the two readiness handlers' methods can carry a
    signal. *)
Lemma is_readiness_signal_spec (method : string) (params : json) :
  is_readiness_signal (method, params) =
  if String.eqb method "window/logMessage" then log_message_signals params
  else if String.eqb method "$/progress" then progress_signals params
  else false.
Proof.
  unfold is_readiness_signal, startup_handlers, registered. cbn [fst snd].
  destruct (String.eqb_spec method "window/logMessage") as [->|N1]; [reflexivity|].
  destruct (String.eqb_spec method "$/progress") as [->|N2]; [reflexivity|].
  rewrite !lookup_insert. repeat case_decide; subst; congruence || reflexivity.
Qed.

Lemma window_log_message_ready (msg : json) (s : state) :
  server_ready (window_log_message msg s).1 = server_ready s || log_message_signals msg.
Proof.
  unfold log_message_signals.
  destruct (Py.get msg "message" (JStr "")) as [v|e] eqn:E.
  - destruct v as [| | |text| |];
      try (unfold window_log_message, log; run_monad; rewrite E; simpl;
           rewrite orb_false_r; reflexivity).
    rewrite (window_log_message_text msg text s E). cbv zeta.
    destruct (matches_readiness (PyStr.lower text));
      destruct (PyStr.any_in failure_words (PyStr.lower text)); simpl;
      rewrite ?orb_true_r, ?orb_false_r; reflexivity.
  - unfold window_log_message. run_monad. rewrite E. simpl.
    rewrite orb_false_r. reflexivity.
Qed.

Lemma check_server_ready_ready (params : json) (s : state) :
  server_ready (check_server_ready params s).1 = server_ready s || progress_signals params.
Proof.
  unfold progress_signals, check_server_ready, log, server_ready_set. run_monad.
  destruct (Py.get params "value" (JDict [])) as [value|e]; simpl;
    [|rewrite orb_false_r; reflexivity].
  destruct (Py.get value "kind" JNull) as [kind|e]; simpl;
    [|rewrite orb_false_r; reflexivity].
  destruct (Py.eq_str kind "end"); simpl; [|rewrite orb_false_r; reflexivity].
  destruct (Py.get value "message" (JStr "")) as [m|e]; simpl;
    [|rewrite orb_false_r; reflexivity].
  destruct m as [| | |message| |]; simpl; try (rewrite orb_false_r; reflexivity).
  destruct (PyStr.any_in completion_words (PyStr.lower message)); simpl;
    [|rewrite orb_false_r; reflexivity].
  destruct (server_ready s) eqn:E; simpl; rewrite ?E; reflexivity.
Qed.

Lemma dispatch_ready (n : notification) (s : state) :
  handlers s = startup_handlers ->
  server_ready (dispatch n s) = server_ready s || is_readiness_signal n.
Proof.
  intros Hh. unfold dispatch, is_readiness_signal. rewrite Hh.
  destruct (startup_handlers !! n.1) as [[]|]; simpl;
    rewrite ?orb_false_r; auto using window_log_message_ready, check_server_ready_ready.
Qed.

(** Notifications that are no readiness signal leave a clear flag clear. *)
Lemma deliver_until_quiet (t_end : Z) (pending : list (Z * notification)) (s : state) :
  handlers s = startup_handlers ->
  server_ready s = false ->
  (forall t n, (t, n) ∈ pending -> t <= t_end -> is_readiness_signal n = false) ->
  server_ready (deliver_until t_end pending s) = false.
Proof.
  revert s. induction pending as [|[t n] rest IH]; intros s Hh Hr Hq; simpl; auto.
  destruct (t <=? t_end) eqn:E; simpl; auto.
  apply Z.leb_le in E. apply IH.
  - rewrite (dl_handlers _ _ (delivered_dispatch n (tick_to t s))). exact Hh.
  - rewrite dispatch_ready by exact Hh. simpl. rewrite Hr. simpl.
    apply (Hq t n); [apply elem_of_cons; auto | exact E].
  - intros t' n' Hin. apply Hq. apply elem_of_cons. auto.
Qed.

Lemma wait_until_quiet (deadline : Z) (pending : list (Z * notification)) (s : state) :
  handlers s = startup_handlers ->
  server_ready s = false ->
  (forall t n, (t, n) ∈ pending -> t < deadline -> is_readiness_signal n = false) ->
  (wait_until deadline pending s).2 = false.
Proof.
  revert s. induction pending as [|[t n] rest IH]; intros s Hh Hr Hq; simpl;
    rewrite Hr; simpl; auto.
  destruct (t <? deadline) eqn:E; simpl; auto.
  apply Z.ltb_lt in E. apply IH.
  - rewrite (dl_handlers _ _ (delivered_dispatch n (tick_to t s))). exact Hh.
  - rewrite dispatch_ready by exact Hh. simpl. rewrite Hr. simpl.
    apply (Hq t n); [apply elem_of_cons; auto | exact E].
  - intros t' n' Hin. apply Hq. apply elem_of_cons. auto.
Qed.

(** ** Projections of the trace *)

(** [time.sleep] calls: when and for how long. *)
Definition sleeps (tr : list (Z * effect)) : list (Z * Z) :=
  omap (fun te => match te.2 with Sleep d => Some (te.1, d) | _ => None end) tr.

(** Calls made on the transport. *)
Definition server_calls (tr : list (Z * effect)) : list server_call :=
  omap (fun te => match te.2 with Server c => Some c | _ => None end) tr.

(** [server_ready.set()] calls made by the timeout branch. *)
Definition forced_sets (tr : list (Z * effect)) : list (Z * bool) :=
  omap (fun te => match te.2 with
                  | ReadySet by_timeout was => Some (te.1, was)
                  | _ => None
                  end) tr.

(** Calls made on psutil and the process object, and the naps between them. *)
Definition watchdog_steps (tr : list (Z * effect)) : list effect :=
  omap (fun te => match te.2 with
                  | Ps c => Some (Ps c)
                  | Sleep d => Some (Sleep d)
                  | _ => None
                  end) tr.

Lemma handler_made_silent (ex : list (Z * effect)) :
  Forall handler_made ex ->
  sleeps ex = [] /\ server_calls ex = [] /\ forced_sets ex = [] /\ watchdog_steps ex = [].
Proof.
  induction 1 as [|[t e] ex He _ IH]; [auto|].
  destruct IH as (I1 & I2 & I3 & I4).
  unfold sleeps, server_calls, forced_sets, watchdog_steps in *.
  unfold handler_made in He; simpl in He.
  destruct e as [| | | |[] ?|]; simpl; try contradiction; auto.
Qed.

(** ** Running a computation step by step *)

Lemma bind_modify {B : Type} (f : state -> state) (k : unit -> M B) (s : state) :
  (modify f ≫= k) s = k tt (f s).
Proof. reflexivity. Qed.

Lemma bind_gets {A B : Type} (f : state -> A) (k : A -> M B) (s : state) :
  (gets f ≫= k) s = k (f s) s.
Proof. reflexivity. Qed.

Lemma bind_lift_inl {A B : Type} (a : A) (k : A -> M B) (s : state) :
  (lift (inl a) ≫= k) s = k a s.
Proof. reflexivity. Qed.

Lemma bind_lift_inr {A B : Type} (e : exn) (k : A -> M B) (s : state) :
  (lift (inr e) ≫= k) s = (s, inr e).
Proof. reflexivity. Qed.

Lemma bind_ret {A B : Type} (a : A) (k : A -> M B) (s : state) :
  (mret a ≫= k) s = k a s.
Proof. reflexivity. Qed.

Lemma bind_assoc {A B C : Type} (m : M A) (k : A -> M B) (k' : B -> M C) (s : state) :
  ((m ≫= k) ≫= k') s = (m ≫= (fun a => k a ≫= k')) s.
Proof. run_monad. destruct (m s) as [s' [a|e]]; reflexivity. Qed.

Lemma bind_elapse {B : Type} (d : Z) (k : unit -> M B) (s : state) :
  (elapse d ≫= k) s = k tt (elapse d s).1.
Proof. reflexivity. Qed.

Lemma run_modify (f : state -> state) (s : state) : modify f s = (f s, inl tt).
Proof. reflexivity. Qed.

Lemma run_lift {A : Type} (r : A + exn) (s : state) : lift r s = (s, r).
Proof. reflexivity. Qed.

Lemma run_ret {A : Type} (a : A) (s : state) : (mret a : M A) s = (s, inl a).
Proof. reflexivity. Qed.

Lemma run_throw {A : Type} (e : exn) (s : state) : (mthrow e : M A) s = (s, inr e).
Proof. reflexivity. Qed.

Ltac exec_step :=
  first
    [ rewrite bind_assoc
    | rewrite bind_elapse
    | rewrite bind_modify
    | rewrite bind_gets
    | rewrite bind_lift_inl
    | rewrite bind_lift_inr
    | rewrite bind_ret
    | rewrite run_modify
    | rewrite run_lift
    | rewrite run_ret
    | rewrite run_throw ];
  cbv beta.

Ltac exec := repeat exec_step.

(** What [launch_and_handshake] logs and calls before the handshake. *)
Definition launch_trace (t : Z) : list (Z * effect) :=
  [ (t, Server (on_request "client/registerCapability" H_register_capability_handler));
    (t, Server (on_notification "window/logMessage" H_window_log_message));
    (t, Server (on_notification "$/progress" H_check_server_ready));
    (t, Server (on_notification "window/workDoneProgress/create" H_do_nothing));
    (t, Server (on_notification "$/workDoneProgress" H_do_nothing));
    (t, Server (on_notification "textDocument/publishDiagnostics" H_do_nothing));
    (t, Log INFO [Lit "Starting Erlang LS server process"]);
    (t, Server start);
    (t, Log INFO [Lit "Sending initialize request to Erlang LS"]) ].

Lemma launch_reaches_handshake (tr : Transport) (s : state) :
  start_result tr = inl tt ->
  exists s1,
    launch_and_handshake tr s = handshake tr (initialize_params (repository_root_path s)) s1
    /\ handlers s1 = registered (handlers s)
    /\ server_ready s1 = server_ready s
    /\ completions_available s1 = completions_available s
    /\ clock s1 = clock s
    /\ inbox s1 = inbox s
    /\ trace s1 = trace s ++ launch_trace (clock s).
Proof.
  intros Hstart. eexists. split.
  - unfold launch_and_handshake, server_on_request, server_on_notification,
      register, server_start, log.
    rewrite Hstart. exec. reflexivity.
  - simpl. rewrite <- !app_assoc. simpl. repeat split; reflexivity.
Qed.

(** An initialize response that is an object whose [capabilities] member, if
    there is one, is an object too. *)
Definition response_ok (resp : json) : bool :=
  match resp with
  | JDict kv =>
      match Py.assoc "capabilities" kv with
      | None | Some (JDict _) => true
      | Some _ => false
      end
  | _ => false
  end.

(** The state in which the [initialize] call returns or raises. *)
Definition after_initialize (tr : Transport) (params : json) (s : state) : state :=
  (elapse (initialize_latency tr) (emit (Server (send_initialize params)) s)).1.

Lemma handshake_answered (tr : Transport) (params : json) (s1 : state) (resp : json) :
  initialize_result tr = inl resp ->
  response_ok resp = true ->
  exists s3 ex,
    handshake tr params s1 = (s3, initialized_result tr)
    /\ server_ready s3 = server_ready (after_initialize tr params s1)
    /\ handlers s3 = handlers (after_initialize tr params s1)
    /\ clock s3 = clock (after_initialize tr params s1)
    /\ inbox s3 = inbox (after_initialize tr params s1)
    /\ completions_available s3 = true
    /\ trace s3 = trace (after_initialize tr params s1) ++ ex
    /\ server_calls ex = [notify_initialized (JDict [])]
    /\ sleeps ex = [] /\ forced_sets ex = [].
Proof.
  intros Hinit Hok. unfold after_initialize.
  set (s2 := (elapse (initialize_latency tr) (emit (Server (send_initialize params)) s1)).1).
  destruct resp as [| | | | |kv]; try discriminate. simpl in Hok.
  unfold handshake, try_except, server_send_initialize, server_notify_initialized,
    completions_available_set, log.
  exec. fold s2. rewrite Hinit. exec. cbn [Py.contains].
  destruct (Py.assoc "capabilities" kv) as [caps|] eqn:Hcaps.
  - destruct caps as [| | | | |caps]; try discriminate.
    exec. cbn [Py.getitem]. rewrite Hcaps. exec. cbn [Py.keys]. exec.
    destruct (initialized_result tr) as [[]|e]; exec; cbn [Exception];
      eexists; eexists; (split; [reflexivity|]); simpl;
      rewrite <- ?app_assoc; simpl; repeat split; reflexivity.
  - exec.
    destruct (initialized_result tr) as [[]|e]; exec; cbn [Exception];
      eexists; eexists; (split; [reflexivity|]); simpl;
      rewrite <- ?app_assoc; simpl; repeat split; reflexivity.
Qed.

Lemma handshake_refused (tr : Transport) (params : json) (s1 : state) (e : exn) :
  initialize_result tr = inr e ->
  exists s3,
    handshake tr params s1 = (s3, inr e)
    /\ server_ready s3 = server_ready (after_initialize tr params s1)
    /\ completions_available s3 = true
    /\ trace s3 = trace (after_initialize tr params s1)
                  ++ [ (clock (after_initialize tr params s1),
                        Log ERROR [Lit "Erlang LS initialization failed: "; Exc e]);
                       (clock (after_initialize tr params s1), CompletionsSet) ].
Proof.
  intros Hinit. unfold after_initialize.
  set (s2 := (elapse (initialize_latency tr) (emit (Server (send_initialize params)) s1)).1).
  unfold handshake, try_except, server_send_initialize, completions_available_set, log.
  exec. fold s2. rewrite Hinit. exec. cbn [Exception]. exec.
  eexists. split; [reflexivity|]. simpl. rewrite <- ?app_assoc. simpl.
  repeat split; reflexivity.
Qed.

Lemma bind_inl_inv {A B : Type} (m : M A) (k : A -> M B) (s s' : state) (b : B) :
  (m ≫= k) s = (s', inl b) ->
  exists a s1, m s = (s1, inl a) /\ k a s1 = (s', inl b).
Proof.
  run_monad. destruct (m s) as [s1 [a|e]]; [eauto | discriminate].
Qed.

(** Whatever the transport does, the handshake leaves the gate set. *)
Lemma handshake_sets_gate (tr : Transport) (params : json) (s : state) :
  completions_available (handshake tr params s).1 = true.
Proof.
  unfold handshake, try_except.
  match goal with |- context [(?body ≫= ?k) s] => set (m := body ≫= k) end.
  destruct (m s) as [s' [[]|e]] eqn:E.
  - unfold m in E. clear m.
    apply bind_inl_inv in E as (resp & s1 & _ & E).
    apply bind_inl_inv in E as (has & s2 & _ & E).
    apply bind_inl_inv in E as ([] & s3 & _ & E).
    apply bind_inl_inv in E as ([] & s4 & _ & E).
    unfold completions_available_set, log in E. revert E. exec.
    intros E. injection E as <-. reflexivity.
  - unfold Exception, log, completions_available_set. exec. reflexivity.
Qed.

Lemma bind_server_ready_wait {B : Type} (timeout : Z) (k : bool -> M B) (s : state) :
  (server_ready_wait timeout ≫= k) s =
  k (wait_until (clock s + timeout) (inbox s) s).2
    (wait_until (clock s + timeout) (inbox s) s).1.
Proof.
  unfold server_ready_wait. run_monad.
  destruct (wait_until (clock s + timeout) (inbox s) s); reflexivity.
Qed.

Lemma transitions_app (a b : list (Z * effect)) :
  transitions (a ++ b) = transitions a ++ transitions b.
Proof. apply omap_app. Qed.

(** Once the flag is set, no later call of [set] finds it clear. *)
Lemma evolves_ready_transitions (s s' : state) :
  evolves s s' -> server_ready s = true ->
  transitions (trace s') = transitions (trace s).
Proof.
  intros Hev Hr. pose proof (ev_ready _ _ Hev Hr) as Hr'.
  pose proof (ev_potential _ _ Hev) as Hp. unfold potential in Hp.
  rewrite Hr, Hr' in Hp.
  destruct (ev_trace _ _ Hev) as [k Hk]. rewrite Hk, transitions_app in *.
  rewrite length_app in Hp.
  destruct (transitions k); [apply app_nil_r | simpl in Hp; lia].
Qed.

(** While the flag is clear, no call of [set] has found it clear since. *)
Lemma evolves_clear_transitions (s s' : state) :
  evolves s s' -> server_ready s' = false ->
  transitions (trace s') = transitions (trace s).
Proof.
  intros Hev Hr'. pose proof (ev_ready _ _ Hev) as Hmono.
  pose proof (ev_potential _ _ Hev) as Hp. unfold potential in Hp.
  rewrite Hr' in Hp.
  destruct (server_ready s); [specialize (Hmono eq_refl); congruence|].
  destruct (ev_trace _ _ Hev) as [k Hk]. rewrite Hk, transitions_app in *.
  rewrite length_app in Hp.
  destruct (transitions k); [apply app_nil_r | simpl in Hp; lia].
Qed.

Lemma settling_time_nonneg (ci : bool) : 0 <= settling_time ci.
Proof. destruct ci; unfold settling_time, seconds; lia. Qed.

Lemma basic_settling_time_nonneg (ci : bool) : 0 <= basic_settling_time ci.
Proof. destruct ci; unfold basic_settling_time, seconds; lia. Qed.

Lemma ready_timeout_nonneg (ci macos : bool) : 0 <= (ready_timeout ci macos).1.
Proof. destruct ci, macos; unfold ready_timeout, seconds; simpl; lia. Qed.

(** The line [_start_server] logs before it waits. *)
Definition waiting_line (os : Environ) : effect :=
  Log INFO
    [ Lit "Waiting up to "; Millis (ready_timeout (is_ci os) (is_macos os)).1;
      Lit " seconds for Erlang LS readiness (";
      Lit (ready_timeout (is_ci os) (is_macos os)).2;
      Lit " environment)..." ].

(** The state in which [server_ready.wait] returns, and what it returns. *)
Definition readiness_wait (os : Environ) (s : state) : state * bool :=
  wait_until (clock s + (ready_timeout (is_ci os) (is_macos os)).1) (inbox s)
    (emit (waiting_line os) s).

(** The settling delay [_start_server] sleeps after the wait. *)
Definition settling_delay (ci signaled : bool) : Z :=
  if signaled then settling_time ci else basic_settling_time ci.

Lemma await_readiness_run (os : Environ) (s : state) :
  let s4 := (readiness_wait os s).1 in
  let signaled := (readiness_wait os s).2 in
  let final := (await_readiness os s).1 in
  (await_readiness os s).2 = inl tt
  /\ server_ready final = true
  /\ sleeps (trace final)
     = sleeps (trace s) ++ [(clock s4, settling_delay (is_ci os) signaled)]
  /\ forced_sets (trace final)
     = forced_sets (trace s) ++ (if signaled then [] else [(clock s4, false)])
  /\ transitions (trace final)
     = transitions (trace s4) ++ (if signaled then [] else [(clock s4, by_timeout)])
  /\ server_calls (trace final) = server_calls (trace s)
  /\ clock final = clock s4 + settling_delay (is_ci os) signaled
  /\ completions_available final = completions_available s.
Proof.
  unfold readiness_wait, waiting_line, await_readiness.
  destruct (ready_timeout (is_ci os) (is_macos os)) as [timeout env_desc].
  cbn [fst snd]. unfold log, time_sleep, server_ready_set.
  exec. rewrite bind_server_ready_wait. cbn [clock emit with_trace inbox].
  set (s0 := emit _ s).
  pose proof (delivered_wait_until (clock s + timeout) (inbox s) s0) as Hd.
  pose proof (wait_until_returns_flag (clock s + timeout) (inbox s) s0) as Hflag.
  destruct (wait_until (clock s + timeout) (inbox s) s0) as [s4 signaled].
  cbn [fst snd] in *.
  destruct Hd as [Hc4 _ _ (ex4 & Hex4 & Hmade4)].
  destruct (handler_made_silent _ Hmade4) as (Hs4 & Hc & Hf4 & _).
  assert (Htr4 : trace s4 = (trace s ++ [(clock s, snd (clock s, Log INFO
      [Lit "Waiting up to "; Millis timeout;
       Lit " seconds for Erlang LS readiness ("; Lit env_desc;
       Lit " environment)..."]))]) ++ ex4) by exact Hex4.
  simpl in Htr4.
  destruct signaled; cbv iota; exec.
  - match goal with |- context [elapse ?d ?x] => set (s5 := x); set (dd := d) end.
    pose proof (delivered_elapse dd s5) as Hd6.
    pose proof (clock_elapse dd s5 (settling_time_nonneg _)) as Hc6.
    pose proof (steady_elapse dd s5) as He6.
    destruct Hd6 as [Hcomp6 _ _ (ex6 & Hex6 & Hmade6)].
    destruct (handler_made_silent _ Hmade6) as (Hs6 & Hsc6 & Hf6 & _).
    assert (R5 : server_ready s5 = true) by (subst s5; simpl; congruence).
    pose proof (evolves_ready_transitions _ _ He6 R5) as Ht6.
    pose proof (ev_ready _ _ He6 R5) as R6.
    set (s6 := (elapse dd s5).1) in *. clearbody s6. subst s5 dd s0.
    cbn [fst snd emit with_trace trace clock server_ready completions_available
         with_server_ready] in *.
    rewrite transitions_snoc, app_nil_r, Ht6, !transitions_snoc, !app_nil_r.
    rewrite Hex6, Htr4.
    unfold sleeps, forced_sets, server_calls, settling_delay in *.
    rewrite !omap_app, ?Hs4, ?Hf4, ?Hc, ?Hs6, ?Hf6, ?Hsc6. cbn [omap list_omap fst snd].
    rewrite ?app_nil_r.
    repeat split; auto; congruence || lia.
  - match goal with |- context [elapse ?d ?x] => set (s5 := x); set (dd := d) end.
    pose proof (delivered_elapse dd s5) as Hd6.
    pose proof (clock_elapse dd s5 (basic_settling_time_nonneg _)) as Hc6.
    pose proof (steady_elapse dd s5) as He6.
    destruct Hd6 as [Hcomp6 _ _ (ex6 & Hex6 & Hmade6)].
    destruct (handler_made_silent _ Hmade6) as (Hs6 & Hsc6 & Hf6 & _).
    assert (R5 : server_ready s5 = true) by (subst s5; reflexivity).
    pose proof (evolves_ready_transitions _ _ He6 R5) as Ht6.
    pose proof (ev_ready _ _ He6 R5) as R6.
    set (s6 := (elapse dd s5).1) in *. clearbody s6. subst s5 dd s0.
    cbn [fst snd emit with_trace trace clock server_ready completions_available
         with_server_ready] in *.
    rewrite transitions_snoc, app_nil_r, Ht6, !transitions_snoc, ?app_nil_r.
    rewrite Hex6, Htr4.
    unfold sleeps, forced_sets, server_calls, settling_delay in *.
    rewrite !omap_app, ?Hs4, ?Hf4, ?Hc, ?Hs6, ?Hf6, ?Hsc6. cbn [omap list_omap fst snd].
    rewrite ?app_nil_r.
    rewrite <- Hflag.
    repeat split; auto; congruence || lia.
Qed.

Lemma start_server_split (os : Environ) (tr : Transport) (s : state) :
  _start_server os tr s =
  match launch_and_handshake tr s with
  | (s3, inl _) => await_readiness os s3
  | (s3, inr e) => (s3, inr e)
  end.
Proof. reflexivity. Qed.

(** ** Before the wait nothing sleeps and nothing forces the flag *)

Definition unslept (s s' : state) : Prop :=
  sleeps (trace s') = sleeps (trace s)
  /\ forced_sets (trace s') = forced_sets (trace s).

#[export] Instance unslept_preorder : PreOrder unslept.
Proof.
  split.
  - intros s. split; reflexivity.
  - intros s1 s2 s3 [A1 B1] [A2 B2]. split; congruence.
Qed.

Lemma unslept_emit (e : effect) :
  (forall d, e <> Sleep d) -> (forall was, e <> ReadySet by_timeout was) ->
  respects unslept (modify (emit e)).
Proof.
  intros H1 H2 s. unfold unslept, modify, sleeps, forced_sets. simpl.
  rewrite !omap_app. simpl.
  destruct e as [| | | d | [] was |]; simpl; rewrite ?app_nil_r; auto.
  - exfalso. eapply H1. reflexivity.
  - exfalso. eapply H2. reflexivity.
Qed.

Lemma unslept_log (text : list piece) (lvl : level) : respects unslept (log text lvl).
Proof. apply unslept_emit; discriminate. Qed.

Lemma unslept_register (c : server_call) (method : string) (h : handler) :
  respects unslept (register c method h).
Proof.
  intros s. unfold register, modify. simpl.
  apply (unslept_emit (Server c)); discriminate.
Qed.

Lemma unslept_completions_available_set : respects unslept completions_available_set.
Proof.
  intros s. unfold completions_available_set, modify. simpl.
  apply (unslept_emit CompletionsSet); discriminate.
Qed.

Lemma unslept_delivered (s s' : state) : delivered s s' -> unslept s s'.
Proof.
  intros [_ _ _ (ex & Hex & Hmade)].
  destruct (handler_made_silent _ Hmade) as (H1 & _ & H3 & _).
  unfold unslept, sleeps, forced_sets in *. rewrite Hex, !omap_app, H1, H3, !app_nil_r.
  auto.
Qed.

Lemma unslept_elapse (d : Z) : respects unslept (elapse d).
Proof. intros s. apply unslept_delivered, delivered_elapse. Qed.

#[export] Hint Resolve unslept_log unslept_register unslept_completions_available_set
  unslept_elapse : respects.
#[export] Hint Extern 1 (respects unslept (modify (emit _))) =>
  (apply unslept_emit; discriminate) : respects.

Lemma unslept_launch_and_handshake (tr : Transport) :
  respects unslept (launch_and_handshake tr).
Proof.
  unfold launch_and_handshake, handshake, server_on_request, server_on_notification,
    server_start, server_send_initialize, server_notify_initialized.
  walk.
Qed.

(** * The claims *)

(** ** Timeout budgets *)

Lemma is_ci_spec (os : Environ) :
  is_ci os = true <->
  getenv os "CI" = Some "true" \/ getenv os "GITHUB_ACTIONS" = Some "true".
Proof.
  unfold is_ci. rewrite orb_true_iff, !bool_decide_eq_true. reflexivity.
Qed.

Lemma readiness_wait_timeout_clock (os : Environ) (s : state) :
  (readiness_wait os s).2 = false ->
  clock (readiness_wait os s).1
  = clock s + (ready_timeout (is_ci os) (is_macos os)).1.
Proof.
  unfold readiness_wait. intros H.
  apply wait_until_timeout_clock; [|exact H].
  pose proof (ready_timeout_nonneg (is_ci os) (is_macos os)). simpl. lia.
Qed.

Lemma ready_timeout_pos (ci macos : bool) : 0 < (ready_timeout ci macos).1.
Proof. destruct ci, macos; unfold ready_timeout, seconds; simpl; lia. Qed.

(** Nothing is delivered while nothing the child emits is due. *)
Lemma deliver_until_none_due (t_end : Z) (pending : list (Z * notification)) (s : state) :
  (forall x, x ∈ pending -> t_end < x.1) ->
  deliver_until t_end pending s = with_inbox pending s.
Proof.
  destruct pending as [|[t n] rest]; intros H; simpl; [reflexivity|].
  assert (E : (t <=? t_end) = false).
  { apply Z.leb_gt. apply (H (t, n)), elem_of_cons. auto. }
  rewrite E. reflexivity.
Qed.

Lemma wait_until_none_due (deadline : Z) (pending : list (Z * notification)) (s : state) :
  server_ready s = false ->
  (forall x, x ∈ pending -> deadline <= x.1) ->
  wait_until deadline pending s = (with_inbox pending (tick_to deadline s), false).
Proof.
  destruct pending as [|[t n] rest]; intros R H; simpl; rewrite R; [reflexivity|].
  assert (E : (t <? deadline) = false).
  { apply Z.ltb_ge. apply (H (t, n)), elem_of_cons. auto. }
  rewrite E. reflexivity.
Qed.

(** A start-up during which the child stays silent until the deadline: the
    wait of [_start_server] times out, and the flag is forced, exactly
    [ready_timeout] after the handshake ended. *)
Lemma start_server_times_out (os : Environ) (tr : Transport) (s : state) (resp : json) :
  start_result tr = inl tt ->
  initialize_result tr = inl resp ->
  response_ok resp = true ->
  initialized_result tr = inl tt ->
  0 <= initialize_latency tr ->
  server_ready s = false ->
  (forall x, x ∈ inbox s ->
     clock s + initialize_latency tr + (ready_timeout (is_ci os) (is_macos os)).1 <= x.1) ->
  (_start_server os tr s).2 = inl tt
  /\ forced_sets (trace (_start_server os tr s).1)
     = forced_sets (trace s)
       ++ [(clock s + initialize_latency tr + (ready_timeout (is_ci os) (is_macos os)).1,
            false)].
Proof.
  intros Hstart Hresp Hok Hnotify Hlat R0 Hdue.
  pose proof (ready_timeout_pos (is_ci os) (is_macos os)) as Hpos.
  destruct (launch_reaches_handshake tr s Hstart)
    as (s1 & Hrun & _ & R1 & _ & K1 & I1 & _).
  set (params := initialize_params (repository_root_path s)) in *.
  destruct (handshake_answered tr params s1 resp Hresp Hok)
    as (s3 & ex & Hhs & R3 & _ & K3 & I3 & _).
  rewrite Hnotify in Hhs.
  assert (E2 : after_initialize tr params s1
               = tick_to (clock s1 + initialize_latency tr)
                   (with_inbox (inbox s1) (emit (Server (send_initialize params)) s1))).
  { unfold after_initialize, elapse, modify. cbn [fst clock emit with_trace inbox].
    rewrite deliver_until_none_due; [reflexivity|].
    intros x Hx. rewrite I1 in Hx. specialize (Hdue x Hx). lia. }
  rewrite E2 in R3, K3, I3.
  cbn [tick_to with_clock with_inbox emit with_trace clock inbox server_ready]
    in R3, K3, I3.
  assert (K3' : clock s3 = clock s + initialize_latency tr)
    by (clear - K3 K1 Hlat; lia).
  assert (W : readiness_wait os s3
              = (with_inbox (inbox s3)
                   (tick_to (clock s3 + (ready_timeout (is_ci os) (is_macos os)).1)
                      (emit (waiting_line os) s3)), false)).
  { unfold readiness_wait. apply wait_until_none_due.
    - simpl. congruence.
    - intros x Hx. rewrite I3, I1 in Hx. specialize (Hdue x Hx). lia. }
  pose proof (unslept_launch_and_handshake tr s) as [_ F].
  rewrite Hrun, Hhs in F. simpl in F.
  rewrite start_server_split, Hrun, Hhs.
  destruct (await_readiness_run os s3) as (A1 & _ & _ & A4 & _).
  rewrite W in A4.
  cbn [fst snd tick_to with_clock with_inbox emit with_trace clock] in A4.
  split; [exact A1|]. rewrite A4, F.
  replace (Z.max (clock s3) (clock s3 + (ready_timeout (is_ci os) (is_macos os)).1))
    with (clock s + initialize_latency tr + (ready_timeout (is_ci os) (is_macos os)).1)
    by lia.
  reflexivity.
Qed.

(** C7.  The timeout budgets are functions of the environment (continuous
    integration is detected from [CI] or [GITHUB_ACTIONS] being "true", macOS
    from the system name).  Every successful construction sets the
    per-request timeout to 45 s under CI and to 60 s otherwise, no later
    operation changes it, and 45 s < 60 s.  When the child stays silent,
    the readiness wait of [_start_server] times out, and the flag is forced,
    240 s after the handshake for CI on macOS, 180 s for other CI and 60 s
    for local runs, and 60 s < 180 s < 240 s. *)
Theorem timeout_budgets :
  (forall os,
     is_ci os = true <->
     getenv os "CI" = Some "true" \/ getenv os "GITHUB_ACTIONS" = Some "true")
  /\ (forall os, is_macos os = true <-> uname_sysname os = Some "Darwin")
  /\ (forall root os c path now emissions,
        exists s,
          __init__ root os (Some (String c path)) (inl 0) now emissions = inl s
          /\ request_timeout s = if is_ci os then seconds 45 else seconds 60)
  /\ (forall ops s, request_timeout (run ops s) = request_timeout s)
  /\ seconds 45 < seconds 60
  /\ (forall os tr s resp,
        start_result tr = inl tt ->
        initialize_result tr = inl resp ->
        response_ok resp = true ->
        initialized_result tr = inl tt ->
        0 <= initialize_latency tr ->
        server_ready s = false ->
        let budget :=
          if is_ci os then if is_macos os then seconds 240 else seconds 180
          else seconds 60 in
        (forall x, x ∈ inbox s -> clock s + initialize_latency tr + budget <= x.1) ->
        (_start_server os tr s).2 = inl tt
        /\ forced_sets (trace (_start_server os tr s).1)
           = forced_sets (trace s)
             ++ [(clock s + initialize_latency tr + budget, false)])
  /\ seconds 60 < seconds 180 < seconds 240.
Proof.
  split; [exact is_ci_spec|].
  split.
  { intros os. unfold is_macos. destruct (uname_sysname os) as [n|]; [|split; discriminate].
    rewrite String.eqb_eq. split; [intros ->; reflexivity | intros [= ->]; reflexivity]. }
  split.
  { intros root os c path now emissions. eexists. split; reflexivity. }
  split; [intros ops s; apply (ev_request_timeout _ _ (evolves_run ops s))|].
  split; [unfold seconds; lia|].
  split; [|unfold seconds; lia].
  intros os tr s resp Hstart Hresp Hok Hnotify Hlat R0 budget Hdue.
  assert (B : budget = (ready_timeout (is_ci os) (is_macos os)).1).
  { unfold budget, ready_timeout. destruct (is_ci os), (is_macos os); reflexivity. }
  rewrite B in *.
  exact (start_server_times_out os tr s resp Hstart Hresp Hok Hnotify Hlat R0 Hdue).
Qed.

Lemma timeout_budgets_witness :
  (exists s,
     __init__ "/repo" macos_ci_env (Some "/usr/bin/erlang_ls") (inl 0) 0 [] = inl s
     /\ request_timeout s = seconds 45)
  /\ forced_sets
       (trace (_start_server macos_ci_env good_transport (fresh macos_ci_env [])).1)
     = [(240300, false)].
Proof.
  destruct timeout_budgets as (_ & _ & Hinit & _ & _ & Hwait & _).
  split.
  - exact (Hinit "/repo" macos_ci_env "/"%char "usr/bin/erlang_ls" 0 []).
  - refine (proj2 (Hwait macos_ci_env good_transport (fresh macos_ci_env []) _
                     eq_refl eq_refl eq_refl eq_refl _ eq_refl _)).
    + vm_compute. discriminate.
    + intros x Hx. apply elem_of_nil in Hx. contradiction.
Defined.

(** ** Settling delay *)

(** C8.  A [_start_server] that completes has slept exactly once since it
    was called: the settling delay, started when the readiness wait returned,
    and it completes when that delay is over.  The delay is 15 s (CI) or 5 s
    (local) when the wait was satisfied by a signal and 20 s (CI) or 10 s
    (local) when the wait timed out and the flag was forced; it is strictly
    longer after a timeout than after a signal, and strictly longer under CI
    than locally. *)
Theorem settling_delays (os : Environ) (tr : Transport) (s : state) :
  (_start_server os tr s).2 = inl tt ->
  exists s3,
    launch_and_handshake tr s = (s3, inl tt)
    /\ let returned := (readiness_wait os s3).1 in
       let signaled := (readiness_wait os s3).2 in
       let final := (_start_server os tr s).1 in
       sleeps (trace final)
       = sleeps (trace s) ++ [(clock returned, settling_delay (is_ci os) signaled)]
       /\ forced_sets (trace final)
          = forced_sets (trace s) ++ (if signaled then [] else [(clock returned, false)])
       /\ clock final = clock returned + settling_delay (is_ci os) signaled
       /\ settling_delay true true = seconds 15
       /\ settling_delay false true = seconds 5
       /\ settling_delay true false = seconds 20
       /\ settling_delay false false = seconds 10
       /\ (forall ci, settling_delay ci true < settling_delay ci false)
       /\ (forall signaled', settling_delay false signaled' < settling_delay true signaled').
Proof.
  intros Hdone. rewrite start_server_split in *.
  pose proof (unslept_launch_and_handshake tr s) as [Hs Hf].
  destruct (launch_and_handshake tr s) as [s3 [[]|e]]; [|discriminate].
  exists s3. split; [reflexivity|]. cbv zeta. simpl in Hs, Hf.
  destruct (await_readiness_run os s3) as (_ & _ & H1 & H2 & _ & _ & H3 & _).
  rewrite H1, H2, H3, Hs, Hf.
  repeat split; try reflexivity.
  - intros []; unfold settling_delay, settling_time, basic_settling_time, seconds; lia.
  - intros []; unfold settling_delay, settling_time, basic_settling_time, seconds; lia.
Qed.

Lemma settling_delays_witness :
  (_start_server local_env good_transport (fresh local_env [])).2 = inl tt
  /\ exists s3,
       launch_and_handshake good_transport (fresh local_env []) = (s3, inl tt)
       /\ sleeps (trace (_start_server local_env good_transport (fresh local_env [])).1)
          = sleeps (trace (fresh local_env []))
            ++ [(clock (readiness_wait local_env s3).1,
                 settling_delay (is_ci local_env) (readiness_wait local_env s3).2)].
Proof.
  assert (H : (_start_server local_env good_transport (fresh local_env [])).2 = inl tt)
    by (vm_compute; reflexivity).
  split; [exact H|].
  destruct (settling_delays local_env good_transport (fresh local_env []) H)
    as (s3 & E & S & _).
  exists s3. split; [exact E | exact S].
Defined.

(** ** The handshake *)

(** C2.  Once [_start_server] has started the process and issued the
    initialize request, the gate [completions_available] is set in the state
    it leaves behind, whatever the transport answers and whether
    [_start_server] returns or raises.  When the initialize call raises, the
    same exception leaves [_start_server] and setting the gate is the last
    thing done before it does. *)
Theorem gate_set_on_every_outcome (os : Environ) (tr : Transport) (s : state) :
  start_result tr = inl tt ->
  completions_available (_start_server os tr s).1 = true
  /\ (forall e,
        initialize_result tr = inr e ->
        (_start_server os tr s).2 = inr e
        /\ exists t before,
             trace (_start_server os tr s).1 = before ++ [(t, CompletionsSet)]).
Proof.
  intros Hstart.
  destruct (launch_reaches_handshake tr s Hstart) as (s1 & Hrun & _).
  split.
  - rewrite start_server_split, Hrun.
    pose proof (handshake_sets_gate tr (initialize_params (repository_root_path s)) s1) as G.
    destruct (handshake tr (initialize_params (repository_root_path s)) s1)
      as [s3 [[]|e]]; simpl in G; [|exact G].
    destruct (await_readiness_run os s3) as (_ & _ & _ & _ & _ & _ & _ & C).
    rewrite C. exact G.
  - intros e He. rewrite start_server_split, Hrun.
    destruct (handshake_refused tr (initialize_params (repository_root_path s)) s1 e He)
      as (s3 & -> & _ & _ & T).
    split; [reflexivity|]. simpl. rewrite T.
    match goal with
    | |- exists t before, ?a ++ [?x; (?c, CompletionsSet)] = _ =>
        exists c, (a ++ [x])
    end.
    rewrite <- app_assoc. reflexivity.
Qed.

Lemma gate_set_on_every_outcome_witness :
  start_result failing_transport = inl tt
  /\ completions_available (_start_server ci_env failing_transport (fresh ci_env [])).1 = true.
Proof.
  split; [reflexivity|].
  exact (proj1 (gate_set_on_every_outcome ci_env failing_transport (fresh ci_env [])
                  eq_refl)).
Defined.

Lemma server_calls_app (a b : list (Z * effect)) :
  server_calls (a ++ b) = server_calls a ++ server_calls b.
Proof. apply omap_app. Qed.

Lemma server_calls_after_initialize (tr : Transport) (params : json) (s : state) :
  server_calls (trace (after_initialize tr params s))
  = server_calls (trace s) ++ [send_initialize params].
Proof.
  unfold after_initialize.
  destruct (delivered_elapse (initialize_latency tr)
              (emit (Server (send_initialize params)) s))
    as [_ _ _ (ex & -> & Hmade)].
  destruct (handler_made_silent _ Hmade) as (_ & H & _).
  simpl. rewrite !server_calls_app, H, app_nil_r. reflexivity.
Qed.

(** The calls [_start_server] makes on the transport before the handshake. *)
Definition launch_calls : list server_call :=
  [ on_request "client/registerCapability" H_register_capability_handler;
    on_notification "window/logMessage" H_window_log_message;
    on_notification "$/progress" H_check_server_ready;
    on_notification "window/workDoneProgress/create" H_do_nothing;
    on_notification "$/workDoneProgress" H_do_nothing;
    on_notification "textDocument/publishDiagnostics" H_do_nothing;
    start ].

(** Whether an [initialized] notification is among the calls of a trace. *)
Definition initialized_sent (tr : list (Z * effect)) : bool :=
  existsb (fun c => match c with notify_initialized _ => true | _ => false end)
    (server_calls tr).

(** C5, as the code has it.  When the initialize call returns a response
    object (whose [capabilities] member, if present, is an object), the
    [initialized] notification is the next and last call [_start_server]
    makes on the transport.  When the initialize call raises, the error is
    logged at ERROR, the gate is set (these are the last two effects), and
    the same exception leaves [_start_server]; the initialize request is the
    last call made: no [initialized] notification is sent. *)
Theorem initialized_follows_response (os : Environ) (tr : Transport) (s : state) :
  start_result tr = inl tt ->
  let params := initialize_params (repository_root_path s) in
  let final := (_start_server os tr s).1 in
  (forall resp,
     initialize_result tr = inl resp -> response_ok resp = true ->
     server_calls (trace final)
     = server_calls (trace s) ++ launch_calls
       ++ [send_initialize params; notify_initialized (JDict [])])
  /\ (forall e,
        initialize_result tr = inr e ->
        (_start_server os tr s).2 = inr e
        /\ server_calls (trace final)
           = server_calls (trace s) ++ launch_calls ++ [send_initialize params]
        /\ completions_available final = true
        /\ exists t before,
             trace final
             = before
               ++ [ (t, Log ERROR [Lit "Erlang LS initialization failed: "; Exc e]);
                    (t, CompletionsSet) ]).
Proof.
  intros Hstart params final. subst final.
  destruct (launch_reaches_handshake tr s Hstart) as (s1 & Hrun & _ & _ & _ & _ & _ & T1).
  fold params in Hrun.
  assert (C1 : server_calls (trace s1) = server_calls (trace s) ++ launch_calls)
    by (rewrite T1, server_calls_app; reflexivity).
  split.
  - intros resp Hresp Hok. rewrite start_server_split, Hrun.
    destruct (handshake_answered tr params s1 resp Hresp Hok)
      as (s3 & ex & -> & _ & _ & _ & _ & _ & T3 & Cex & _).
    assert (C3 : server_calls (trace s3)
                 = server_calls (trace s) ++ launch_calls
                   ++ [send_initialize params; notify_initialized (JDict [])]).
    { rewrite T3, server_calls_app, server_calls_after_initialize, C1, Cex.
      rewrite <- !app_assoc. reflexivity. }
    destruct (initialized_result tr) as [[]|e]; [|exact C3].
    destruct (await_readiness_run os s3) as (_ & _ & _ & _ & _ & C & _).
    rewrite C. exact C3.
  - intros e He. rewrite start_server_split, Hrun.
    destruct (handshake_refused tr params s1 e He) as (s3 & -> & _ & G3 & T3).
    split; [reflexivity|]. cbn [fst].
    split; [|split; [exact G3 | eauto]].
    rewrite T3, server_calls_app, server_calls_after_initialize, C1.
    simpl. rewrite app_nil_r, <- app_assoc. reflexivity.
Qed.

Lemma initialized_follows_response_witness :
  start_result good_transport = inl tt
  /\ initialized_sent
       (trace (_start_server local_env good_transport (fresh local_env [])).1) = true.
Proof.
  split; [reflexivity|].
  unfold initialized_sent.
  rewrite (proj1 (initialized_follows_response local_env good_transport
                    (fresh local_env []) eq_refl)
             _ eq_refl eq_refl).
  reflexivity.
Defined.

(** C5 as stated fails: a transport that raises on initialize gets no
    [initialized] notification before the error leaves [_start_server]. *)
Lemma initialized_not_sent_when_initialize_raises :
  (_start_server ci_env failing_transport (fresh ci_env [])).2
  = inr (OtherError "connection closed")
  /\ initialized_sent
       (trace (_start_server ci_env failing_transport (fresh ci_env [])).1) = false.
Proof. vm_compute. split; reflexivity. Qed.

(** ** Forced readiness *)

Lemma init_fresh (root : string) (os : Environ) (which : option string)
    (erl : Z + exn) (now : Z) (emissions : list (Z * notification)) (s : state) :
  __init__ root os which erl now emissions = inl s ->
  server_ready s = false
  /\ completions_available s = false
  /\ handlers s = ∅
  /\ clock s = now
  /\ inbox s = emissions
  /\ trace s = []
  /\ telemetry s = (0, 0, 0).
Proof.
  unfold __init__. destruct which as [[|c p]|]; try discriminate.
  destruct (_check_erlang_installation erl) as [[]|e]; try discriminate.
  intros [= <-]. repeat split; reflexivity.
Qed.

(** C4.  Take a freshly constructed object and a handshake that succeeds
    after [initialize_latency].  If nothing the child emits before the
    deadline (the end of the handshake plus the readiness-wait timeout) is a
    readiness signal, then [_start_server] returns, the flag is set when it
    does, and over the whole run exactly one call of [server_ready.set()]
    found the flag clear: the one of the timeout branch, made exactly at the
    deadline.  The timeout branch called [set] once. *)
Theorem forced_readiness (root : string) (os : Environ) (which : option string)
    (erl : Z + exn) (now : Z) (emissions : list (Z * notification))
    (tr : Transport) (resp : json) (s : state) :
  __init__ root os which erl now emissions = inl s ->
  start_result tr = inl tt ->
  initialize_result tr = inl resp ->
  response_ok resp = true ->
  initialized_result tr = inl tt ->
  0 <= initialize_latency tr ->
  let deadline :=
    now + initialize_latency tr + (ready_timeout (is_ci os) (is_macos os)).1 in
  (forall t n, (t, n) ∈ emissions -> t < deadline -> is_readiness_signal n = false) ->
  let final := (_start_server os tr s).1 in
  (_start_server os tr s).2 = inl tt
  /\ server_ready final = true
  /\ transitions (trace final) = [(deadline, by_timeout)]
  /\ forced_sets (trace final) = [(deadline, false)]
  /\ clock final = deadline + basic_settling_time (is_ci os).
Proof.
  intros Hinit Hstart Hresp Hok Hnotify Hlat deadline Hquiet final. subst final.
  destruct (init_fresh _ _ _ _ _ _ _ Hinit) as (R0 & _ & H0 & K0 & I0 & T0 & _).
  pose proof (ready_timeout_pos (is_ci os) (is_macos os)) as Hpos.
  destruct (launch_reaches_handshake tr s Hstart)
    as (s1 & Hrun & H1 & R1 & _ & K1 & I1 & _).
  set (params := initialize_params (repository_root_path s)) in *.
  destruct (handshake_answered tr params s1 resp Hresp Hok)
    as (s3 & ex & Hhs & R3 & H3 & K3 & I3 & _).
  rewrite Hnotify in Hhs.
  (* the state in which the initialize call returns *)
  assert (H2 : handlers (after_initialize tr params s1) = startup_handlers).
  { unfold after_initialize.
    rewrite (dl_handlers _ _ (delivered_elapse _ _)). simpl.
    rewrite H1, H0. reflexivity. }
  assert (K2 : clock (after_initialize tr params s1) = now + initialize_latency tr).
  { unfold after_initialize. rewrite clock_elapse by exact Hlat. simpl. lia. }
  assert (I2 : forall x, x ∈ inbox (after_initialize tr params s1) -> x ∈ emissions).
  { unfold after_initialize. intros x Hx. apply inbox_elapse in Hx.
    simpl in Hx. rewrite I1, I0 in Hx. exact Hx. }
  assert (R2 : server_ready (after_initialize tr params s1) = false).
  { unfold after_initialize, elapse, modify. simpl.
    apply deliver_until_quiet; simpl.
    - rewrite H1, H0. reflexivity.
    - congruence.
    - rewrite I1, I0, K1, K0. intros t n Hin Ht. apply (Hquiet t n Hin).
      unfold deadline. lia. }
  (* the wait *)
  assert (W : (readiness_wait os s3).2 = false).
  { unfold readiness_wait. apply wait_until_quiet; simpl.
    - congruence.
    - congruence.
    - intros t n Hin Ht. rewrite I3 in Hin. apply (Hquiet t n (I2 _ Hin)).
      unfold deadline. rewrite K3, K2 in Ht. exact Ht. }
  pose proof (readiness_wait_timeout_clock os s3 W) as K4.
  rewrite K3, K2 in K4. fold deadline in K4.
  assert (T4 : transitions (trace (readiness_wait os s3).1) = []).
  { assert (E : evolves s (readiness_wait os s3).1).
    { transitivity s3.
      - pose proof (steady_launch_and_handshake tr s) as E.
        rewrite Hrun, Hhs in E. exact E.
      - unfold readiness_wait.
        etransitivity; [|apply evolves_wait_until].
        apply evolves_emit; discriminate. }
    rewrite (evolves_clear_transitions _ _ E), T0; [reflexivity|].
    unfold readiness_wait in *. rewrite <- wait_until_returns_flag. exact W. }
  assert (F3 : forced_sets (trace s3) = []).
  { pose proof (unslept_launch_and_handshake tr s) as [_ F].
    rewrite Hrun, Hhs in F. simpl in F. rewrite F, T0. reflexivity. }
  rewrite start_server_split, Hrun, Hhs.
  destruct (await_readiness_run os s3) as (A1 & A2 & _ & A4 & A5 & _ & A7 & _).
  rewrite W in *. rewrite K4 in *. rewrite T4, F3 in *.
  repeat split; assumption.
Qed.

(** What a child that never announces readiness might emit. *)
Definition silent_child : list (Z * notification) :=
  [ (500, log_message "Compiling module app_sup");
    (900, progress "begin" "Indexing");
    (1200, ("textDocument/publishDiagnostics", JDict [])) ].

Lemma forced_readiness_witness :
  transitions
    (trace (_start_server local_env good_transport (fresh local_env silent_child)).1)
  = [(60300, by_timeout)].
Proof.
  refine (proj1 (proj2 (proj2
    (forced_readiness "/repo" local_env (Some "/usr/bin/erlang_ls") (inl 0) 0
       silent_child good_transport _ (fresh local_env silent_child)
       eq_refl eq_refl eq_refl eq_refl eq_refl _ _)))).
  - vm_compute. discriminate.
  - intros t n Hin _. unfold silent_child in Hin.
    repeat (apply elem_of_cons in Hin as [[= -> ->]|Hin]; [vm_compute; reflexivity|]).
    apply elem_of_nil in Hin. contradiction.
Defined.

(** ** Monotonicity of the readiness flag *)

Lemma run_app (ops more : list operation) (s : state) :
  run (ops ++ more) s = run more (run ops s).
Proof. revert s. induction ops as [|op ops IH]; intros s; simpl; auto. Qed.

(** C3.  Over any sequence of operations on the object (notifications handed
    to their handlers in any order and any number of times, handlers called
    directly, [_start_server], the watchdog, the request wrappers) the value
    of [server_ready] never goes from set to clear and goes from clear to set
    at most once; once set it stays set under any continuation.  Counting
    inside the operations as well: the calls of [server_ready.set()] that
    found the flag clear grow by at most one, and by none when the flag was
    already set, so a freshly constructed object sees at most one in its
    whole life. *)
Theorem readiness_monotone :
  (forall ops s, count_falls (history ops s) = 0%nat)
  /\ (forall ops s, (count_rises (history ops s) <= 1)%nat)
  /\ (forall ops more s,
        server_ready (run ops s) = true -> server_ready (run (ops ++ more) s) = true)
  /\ (forall ops s,
        (length (transitions (trace (run ops s)))
         <= length (transitions (trace s)) + if server_ready s then 0 else 1)%nat)
  /\ (forall root os which erl now emissions ops,
        match __init__ root os which erl now emissions with
        | inl s0 => (length (transitions (trace (run ops s0))) <= 1)%nat
        | inr _ => True
        end).
Proof.
  assert (P : forall ops s,
             (length (transitions (trace (run ops s)))
              <= length (transitions (trace s)) + if server_ready s then 0 else 1)%nat).
  { intros ops s. pose proof (ev_potential _ _ (evolves_run ops s)) as H.
    unfold potential in H. lia. }
  split; [intros ops s; apply history_counts|].
  split.
  { intros ops s. destruct (history_counts ops s) as [_ H].
    destruct (server_ready s), (server_ready (run ops s)); lia. }
  split.
  { intros ops more s H. rewrite run_app. apply (ev_ready _ _ (evolves_run more _)), H. }
  split; [exact P|].
  intros root os which erl now emissions ops.
  destruct (__init__ root os which erl now emissions) as [s0|] eqn:E; [|exact I].
  destruct (init_fresh _ _ _ _ _ _ _ E) as (R0 & _ & _ & _ & _ & T0 & _).
  specialize (P ops s0). rewrite T0, R0 in P. exact P.
Qed.

(** ** The two readiness channels *)

Lemma matches_readiness_spec (message_lower : string) :
  matches_readiness message_lower = true <->
  exists phrase,
    In phrase readiness_signals /\ PyStr.occurs_in (PyStr.lower phrase) message_lower.
Proof.
  unfold matches_readiness. rewrite PyStrFacts.any_in_spec. split.
  - intros (w & Hin & Hocc). apply in_map_iff in Hin as (phrase & <- & Hin). eauto.
  - intros (phrase & Hin & Hocc). exists (PyStr.lower phrase). split; [|exact Hocc].
    apply in_map_iff. eauto.
Qed.

(** All calls of [server_ready.set()]: when, by whom, and whether the flag
    was already set. *)
Definition ready_sets (tr : list (Z * effect)) : list (Z * setter * bool) :=
  omap (fun te => match te.2 with
                  | ReadySet who was => Some (te.1, who, was)
                  | _ => None
                  end) tr.

Definition progress_line : effect :=
  Log INFO [Lit "Erlang LS initialization progress completed"].

Lemma check_server_ready_state (params : json) (s : state) :
  (check_server_ready params s).1 =
  if progress_signals params then
    if server_ready s then emit progress_line s
    else with_server_ready true
           (emit (ReadySet by_progress false) (emit progress_line s))
  else s.
Proof.
  unfold progress_signals, check_server_ready, log, server_ready_set, progress_line.
  run_monad.
  destruct (Py.get params "value" (JDict [])) as [value|e]; simpl; [|reflexivity].
  destruct (Py.get value "kind" JNull) as [kind|e]; simpl; [|reflexivity].
  destruct (Py.eq_str kind "end"); simpl; [|reflexivity].
  destruct (Py.get value "message" (JStr "")) as [m|e]; simpl; [|reflexivity].
  destruct m as [| | |message| |]; simpl; try reflexivity.
  destruct (PyStr.any_in completion_words (PyStr.lower message)); simpl; [|reflexivity].
  destruct (server_ready s) eqn:E; simpl; rewrite ?E; reflexivity.
Qed.

Lemma progress_signals_intro (params value : json) (message word : string) :
  Py.get params "value" (JDict []) = inl value ->
  Py.get value "kind" JNull = inl (JStr "end") ->
  Py.get value "message" (JStr "") = inl (JStr message) ->
  In word completion_words ->
  PyStr.occurs_in word (PyStr.lower message) ->
  progress_signals params = true.
Proof.
  intros Hv Hk Hm Hw Hocc. unfold progress_signals. rewrite Hv, Hk, Hm. simpl.
  apply PyStrFacts.any_in_spec. eauto.
Qed.

(** C6.  (1) A [window/logMessage] whose text, lower-cased, contains a
    lower-cased readiness phrase sets the flag; the progress handler plays no
    part in it.  (2) A [$/progress] notification of kind "end" whose message,
    lower-cased, contains a completion word leaves the flag set, and it calls
    [server_ready.set()] exactly when the flag was clear.  (3) On a state
    whose flag is already set, for instance right after a matching log
    message, the progress handler keeps the flag set and makes no call of
    [set], whatever its payload.  (4) The spec's scenario: the log message
    "Server started and ready to serve requests" sets the flag, and a later
    progress notification "Indexing complete" of kind "end" adds no call of
    [set]. *)
Theorem two_channel_readiness :
  (forall msg text phrase s,
     Py.get msg "message" (JStr "") = inl (JStr text) ->
     In phrase readiness_signals ->
     PyStr.occurs_in (PyStr.lower phrase) (PyStr.lower text) ->
     server_ready (window_log_message msg s).1 = true)
  /\ (forall params value message word s,
        Py.get params "value" (JDict []) = inl value ->
        Py.get value "kind" JNull = inl (JStr "end") ->
        Py.get value "message" (JStr "") = inl (JStr message) ->
        In word completion_words ->
        PyStr.occurs_in word (PyStr.lower message) ->
        server_ready (check_server_ready params s).1 = true
        /\ ready_sets (trace (check_server_ready params s).1)
           = ready_sets (trace s)
             ++ if server_ready s then [] else [(clock s, by_progress, false)])
  /\ (forall params s,
        server_ready s = true ->
        server_ready (check_server_ready params s).1 = true
        /\ ready_sets (trace (check_server_ready params s).1) = ready_sets (trace s))
  /\ (forall s,
        let s1 := (run_handler H_window_log_message
                     (log_message "Server started and ready to serve requests").2 s).1 in
        let s2 := (run_handler H_check_server_ready
                     (progress "end" "Indexing complete").2 s1).1 in
        server_ready s1 = true
        /\ server_ready s2 = true
        /\ ready_sets (trace s2) = ready_sets (trace s1)).
Proof.
  assert (A : forall params s,
            server_ready s = true ->
            server_ready (check_server_ready params s).1 = true
            /\ ready_sets (trace (check_server_ready params s).1) = ready_sets (trace s)).
  { intros params s Hr. rewrite check_server_ready_state, Hr.
    destruct (progress_signals params); [|auto].
    split; [exact Hr|]. unfold ready_sets. simpl. rewrite omap_app. simpl.
    apply app_nil_r. }
  assert (B : forall msg s,
            log_message_signals msg = true ->
            server_ready (window_log_message msg s).1 = true).
  { intros msg s H. rewrite window_log_message_ready, H. apply orb_true_r. }
  split.
  { intros msg text phrase s Hget Hin Hocc. apply B.
    unfold log_message_signals. rewrite Hget.
    apply matches_readiness_spec. eauto. }
  split.
  { intros params value message word s Hv Hk Hm Hw Hocc.
    rewrite check_server_ready_state,
      (progress_signals_intro params value message word Hv Hk Hm Hw Hocc).
    unfold ready_sets, progress_line.
    destruct (server_ready s) eqn:Hr; simpl; rewrite ?omap_app; simpl;
      rewrite ?app_nil_r; auto. }
  split; [exact A|].
  intros s s1 s2.
  assert (R1 : server_ready s1 = true) by (apply B; vm_compute; reflexivity).
  split; [exact R1|]. exact (A _ s1 R1).
Qed.

(** ** Substring matching on the primary channel *)

Definition issue_line (text : string) : effect :=
  Log WARNING [Lit "Erlang LS potential issue: "; Val (JStr text)].

(** C10.  For a [window/logMessage] with text [text]: (1) after the handler
    the flag is set exactly when it was set before or the lower-cased text
    contains, anywhere, some lower-cased readiness phrase; (2) if the
    lower-cased text contains a failure word, the warning "Erlang LS
    potential issue" is the last thing the handler logs, and the flag is as
    (1) says: the failure check neither prevents nor undoes the transition;
    (3) a text containing "uninitialized" sets the flag; (4) the text
    "Server started, but indexing FAILED" both sets the flag and is logged
    as a warning. *)
Theorem substring_readiness_matching :
  (forall msg text s,
     Py.get msg "message" (JStr "") = inl (JStr text) ->
     (server_ready (window_log_message msg s).1 = true <->
      server_ready s = true
      \/ exists phrase pre post,
           In phrase readiness_signals
           /\ PyStr.lower text
              = String.append pre (String.append (PyStr.lower phrase) post)))
  /\ (forall msg text word s,
        Py.get msg "message" (JStr "") = inl (JStr text) ->
        In word failure_words ->
        PyStr.occurs_in word (PyStr.lower text) ->
        (exists before,
           trace (window_log_message msg s).1 = before ++ [(clock s, issue_line text)])
        /\ server_ready (window_log_message msg s).1
           = server_ready s || matches_readiness (PyStr.lower text))
  /\ (forall pre post s,
        server_ready
          (window_log_message
             (JDict [("message", JStr (String.append pre (String.append "uninitialized" post)))])
             s).1 = true)
  /\ (forall s,
        let s' := (window_log_message
                     (log_message "Server started, but indexing FAILED").2 s).1 in
        server_ready s' = true
        /\ exists before, trace s' = before ++ [(clock s, issue_line "Server started, but indexing FAILED")]).
Proof.
  assert (R : forall msg text s,
            Py.get msg "message" (JStr "") = inl (JStr text) ->
            server_ready (window_log_message msg s).1
            = server_ready s || matches_readiness (PyStr.lower text)).
  { intros msg text s Hget. rewrite window_log_message_ready.
    unfold log_message_signals. rewrite Hget. reflexivity. }
  assert (W : forall msg text s,
            Py.get msg "message" (JStr "") = inl (JStr text) ->
            PyStr.any_in failure_words (PyStr.lower text) = true ->
            exists before,
              trace (window_log_message msg s).1 = before ++ [(clock s, issue_line text)]).
  { intros msg text s Hget Hfail.
    rewrite (window_log_message_text msg text s Hget). cbv zeta. rewrite Hfail.
    destruct (matches_readiness (PyStr.lower text)); simpl; eexists; reflexivity. }
  split.
  { intros msg text s Hget. rewrite (R msg text s Hget), orb_true_iff.
    rewrite matches_readiness_spec. unfold PyStr.occurs_in.
    split; (intros [H|H]; [left; exact H | right]).
    - destruct H as (phrase & Hin & pre & post & E). eauto 6.
    - destruct H as (phrase & pre & post & Hin & E). eauto 6. }
  split.
  { intros msg text word s Hget Hin Hocc. split; [|exact (R msg text s Hget)].
    apply (W msg text s Hget). apply PyStrFacts.any_in_spec. eauto. }
  split.
  { intros pre post s. erewrite R by reflexivity.
    apply orb_true_iff. right. apply matches_readiness_spec.
    exists "initialized". split; [simpl; auto|].
    change (PyStr.lower "initialized") with "initialized".
    assert (L : forall a b, PyStr.lower (String.append a b)
                            = String.append (PyStr.lower a) (PyStr.lower b)).
    { induction a as [|c a IH]; intros b; simpl; [reflexivity | rewrite IH; reflexivity]. }
    rewrite !L. change (PyStr.lower "uninitialized") with "uninitialized".
    exists (String.append (PyStr.lower pre) "un"), (PyStr.lower post).
    generalize (PyStr.lower pre), (PyStr.lower post). intros a b.
    induction a as [|c a IH]; [reflexivity | exact (f_equal (String c) IH)]. }
  intros s s'. subst s'. split.
  - erewrite R by reflexivity. apply orb_true_iff. right. vm_compute. reflexivity.
  - apply W; [reflexivity | vm_compute; reflexivity].
Qed.

(** ** The watchdog *)

Lemma watchdog_steps_emit (e : effect) (s : state) :
  watchdog_steps (trace (emit e s))
  = watchdog_steps (trace s)
    ++ match e with
       | Ps c => [Ps c]
       | Sleep d => [Sleep d]
       | _ => []
       end.
Proof.
  unfold watchdog_steps. simpl. rewrite omap_app. destruct e; reflexivity.
Qed.

Lemma watchdog_steps_elapse (d : Z) (s : state) :
  watchdog_steps (trace (elapse d s).1) = watchdog_steps (trace s).
Proof.
  destruct (delivered_elapse d s) as [_ _ _ (ex & -> & Hmade)].
  destruct (handler_made_silent _ Hmade) as (_ & _ & _ & H).
  unfold watchdog_steps in *. rewrite omap_app, H. apply app_nil_r.
Qed.

Lemma below_one_spec (cpu_percent : Q) :
  below_one cpu_percent = true <-> (cpu_percent < 1)%Q.
Proof.
  unfold below_one. rewrite negb_true_iff.
  destruct (Qle_bool 1 cpu_percent) eqn:E.
  - apply Qle_bool_iff in E. split; [discriminate|].
    intros H. exfalso. eapply Qlt_not_le; eassumption.
  - split; [intros _|reflexivity].
    apply Qnot_le_lt. intros H. apply Qle_bool_iff in H. congruence.
Qed.

(** What the watchdog does to a process that exists and whose CPU sample it
    obtained. *)
Definition escalation (psutil : Psutil) (cpu_percent : Q) : list effect :=
  if below_one cpu_percent then
    Ps ps_terminate ::
    match terminate_result psutil with
    | inl _ =>
        Sleep (seconds 2) :: Ps ps_is_running ::
        match is_running_result psutil with
        | inl true => [Ps ps_kill]
        | _ => []
        end
    | inr _ => []
    end
  else [].

(** C9.  [_force_kill_if_stuck] returns normally whatever psutil and the
    process object answer or raise.  When the server has a process, its pid
    exists, the process object is obtained and a CPU sample [cpu] is taken,
    the watchdog does nothing more if [cpu >= 1]; if [cpu < 1] it calls
    [terminate]; if that call returns it sleeps 2 s and asks [is_running],
    and it calls [kill] exactly when the answer is [True]. *)
Theorem watchdog_contained (psutil : Psutil) (s : state) :
  (_force_kill_if_stuck psutil s).2 = inl tt
  /\ (forall cpu, below_one cpu = true <-> (cpu < 1)%Q)
  /\ (forall pid cpu,
        server_process psutil = Some pid ->
        pid_exists_result psutil = inl true ->
        Process_result psutil = inl tt ->
        cpu_percent_result psutil = inl cpu ->
        watchdog_steps (trace (_force_kill_if_stuck psutil s).1)
        = watchdog_steps (trace s)
          ++ [Ps (ps_pid_exists pid); Ps (ps_Process pid); Ps ps_cpu_percent]
          ++ escalation psutil cpu).
Proof.
  split.
  { unfold _force_kill_if_stuck, try_except.
    match goal with |- context [match ?b s with _ => _ end] => destruct (b s) as [s' [[]|e]] end;
      reflexivity. }
  split; [exact below_one_spec|].
  intros pid cpu Hproc Hexists Hprocess Hcpu.
  unfold _force_kill_if_stuck, escalation, try_except, ps, time_sleep, log.
  rewrite Hproc, Hexists, Hprocess, Hcpu. exec.
  destruct (below_one cpu); exec.
  - destruct (terminate_result psutil) as [[]|e1]; exec.
    + destruct (is_running_result psutil) as [[]|e2]; exec.
      * destruct (kill_result psutil) as [[]|e3]; exec;
          repeat (destruct (is_NoSuchProcess _)); cbn [Exception]; exec; cbn [fst];
          rewrite ?watchdog_steps_emit, ?watchdog_steps_elapse, ?watchdog_steps_emit,
            ?watchdog_steps_elapse, ?watchdog_steps_emit;
          cbn [app]; rewrite ?app_nil_r, <- ?app_assoc; reflexivity.
      * cbn [fst].
        rewrite ?watchdog_steps_emit, ?watchdog_steps_elapse, ?watchdog_steps_emit,
          ?watchdog_steps_elapse, ?watchdog_steps_emit;
        cbn [app]; rewrite ?app_nil_r, <- ?app_assoc; reflexivity.
      * repeat (destruct (is_NoSuchProcess _)); cbn [Exception]; exec; cbn [fst];
          rewrite ?watchdog_steps_emit, ?watchdog_steps_elapse, ?watchdog_steps_emit,
            ?watchdog_steps_elapse, ?watchdog_steps_emit;
          cbn [app]; rewrite ?app_nil_r, <- ?app_assoc; reflexivity.
    + repeat (destruct (is_NoSuchProcess _)); cbn [Exception]; exec; cbn [fst];
        rewrite ?watchdog_steps_emit, ?watchdog_steps_elapse, ?watchdog_steps_emit,
          ?watchdog_steps_elapse, ?watchdog_steps_emit;
        cbn [app]; rewrite ?app_nil_r, <- ?app_assoc; reflexivity.
  - cbn [fst].
    rewrite ?watchdog_steps_emit, ?watchdog_steps_elapse, ?watchdog_steps_emit,
      ?watchdog_steps_elapse, ?watchdog_steps_emit;
    cbn [app]; rewrite ?app_nil_r, <- ?app_assoc; reflexivity.
Qed.

(** A process that exists, idles at 0.2 % CPU, survives [terminate] and is
    killed. *)
Definition stuck_process : Psutil :=
  {| server_process := Some 4242;
     pid_exists_result := inl true;
     Process_result := inl tt;
     cpu_percent_result := inl (2 # 10)%Q;
     terminate_result := inl tt;
     is_running_result := inl true;
     kill_result := inl tt |}.

Example watchdog_kills_stuck_process :
  watchdog_steps (trace (_force_kill_if_stuck stuck_process (fresh local_env [])).1)
  = [ Ps (ps_pid_exists 4242); Ps (ps_Process 4242); Ps ps_cpu_percent;
      Ps ps_terminate; Sleep 2000; Ps ps_is_running; Ps ps_kill ].
Proof. vm_compute. reflexivity. Qed.

(** ** Request telemetry *)

Lemma request_containing_symbol_result (call : SuperCall) (s : state) :
  (request_containing_symbol call s).2 = outcome call.
Proof.
  unfold request_containing_symbol, time_time, super_request, try_except, log.
  exec. destruct (outcome call) as [result|e]; exec.
  - match goal with |- context [if ?b then _ else _] => destruct b end; exec; reflexivity.
  - cbn [Exception]. exec. reflexivity.
Qed.

Lemma request_referencing_symbols_result (call : SuperCall) (s : state) :
  (request_referencing_symbols call s).2 = outcome call.
Proof.
  unfold request_referencing_symbols, time_time, super_request, try_except, log.
  exec. destruct (outcome call) as [result|e]; exec.
  - match goal with |- context [if ?b then _ else _] => destruct b end; exec; reflexivity.
  - cbn [Exception]. exec. reflexivity.
Qed.

(** A call that the inherited implementation abandons after 45 s. *)
Definition timed_out_call : SuperCall :=
  {| latency := seconds 45; outcome := inr (TimeoutError "request timed out") |}.

(** A call answered after 120 ms. *)
Definition quick_call : SuperCall :=
  {| latency := 120; outcome := inl (JDict [("name", JStr "start_link")]) |}.

(** C1, what the code does.  The request wrappers hand back what the
    inherited call returns and re-raise what it raises, and they leave
    [_request_count], [_timeout_count] and [_last_timeout_time] as they
    found them.  On a freshly constructed object all three are 0, and they
    are still 0 after a call that was answered and after a call that timed
    out. *)
Theorem request_telemetry_untouched :
  (forall call s,
     (request_containing_symbol call s).2 = outcome call
     /\ telemetry (request_containing_symbol call s).1 = telemetry s)
  /\ (forall call s,
        (request_referencing_symbols call s).2 = outcome call
        /\ telemetry (request_referencing_symbols call s).1 = telemetry s)
  /\ telemetry (fresh ci_env []) = (0, 0, 0)
  /\ telemetry (request_containing_symbol quick_call (fresh ci_env [])).1 = (0, 0, 0)
  /\ (request_containing_symbol timed_out_call (fresh ci_env [])).2
     = inr (TimeoutError "request timed out")
  /\ telemetry (request_containing_symbol timed_out_call (fresh ci_env [])).1 = (0, 0, 0).
Proof.
  split.
  { intros call s. split; [apply request_containing_symbol_result|].
    apply (ev_telemetry _ _ (steady_request_containing_symbol call s)). }
  split.
  { intros call s. split; [apply request_referencing_symbols_result|].
    apply (ev_telemetry _ _ (steady_request_referencing_symbols call s)). }
  repeat split; vm_compute; reflexivity.
Qed.

(** * Further properties of the module *)

(** ** File filter *)

(** [s.endswith(suffix)]: some tail of [s] is [suffix]. *)
Fixpoint endswith (suffix s : string) : bool :=
  String.eqb s suffix ||
  match s with
  | EmptyString => false
  | String _ r => endswith suffix r
  end.

Definition is_ignored_filename (filename : string) : bool :=
  if endswith ".beam" filename then true else false.

(** The last character of a string. *)
Fixpoint last_char (s : string) : option ascii :=
  match s with
  | EmptyString => None
  | String c EmptyString => Some c
  | String _ r => last_char r
  end.

Lemma endswith_spec (suffix s : string) :
  endswith suffix s = true <-> exists stem, s = String.append stem suffix.
Proof.
  induction s as [|c s IH]; cbn [endswith].
  - rewrite orb_false_r, String.eqb_eq. split.
    + intros <-. exists EmptyString. reflexivity.
    + intros [[|a stem] H]; [exact H | discriminate].
  - rewrite orb_true_iff, String.eqb_eq, IH. split.
    + intros [<- | [stem ->]].
      * exists EmptyString. reflexivity.
      * exists (String c stem). reflexivity.
    + intros [[|a stem] H].
      * left. exact H.
      * right. exists stem. injection H. auto.
Qed.

Lemma last_char_append (stem : string) (c : ascii) (r : string) :
  last_char (String.append stem (String c r)) = last_char (String c r).
Proof.
  induction stem as [|a stem IH]; [reflexivity|].
  change (String.append (String a stem) (String c r))
    with (String a (String.append stem (String c r))).
  destruct (String.append stem (String c r)) eqn:E.
  - destruct stem; discriminate.
  - rewrite <- IH. reflexivity.
Qed.

(** A file is ignored exactly when its name ends in ".beam"; the test is on
    the suffix only and case-sensitive, so names ending in another
    character than "m" (sources ".erl", headers ".hrl", "rebar.config",
    upper-case ".BEAM") are never ignored, and neither is the empty name. *)
Theorem beam_files_ignored :
  (forall filename,
     is_ignored_filename filename = true <->
     exists stem, filename = String.append stem ".beam")
  /\ (forall filename,
        is_ignored_filename filename = true -> last_char filename = Some "m"%char)
  /\ (forall stem,
        is_ignored_filename (String.append stem ".erl") = false
        /\ is_ignored_filename (String.append stem ".hrl") = false
        /\ is_ignored_filename (String.append stem ".config") = false
        /\ is_ignored_filename (String.append stem ".BEAM") = false)
  /\ is_ignored_filename "" = false.
Proof.
  assert (A : forall filename,
            is_ignored_filename filename = true <->
            exists stem, filename = String.append stem ".beam").
  { intros filename. unfold is_ignored_filename. rewrite <- endswith_spec.
    destruct (endswith ".beam" filename); split; auto. }
  assert (B : forall filename,
            is_ignored_filename filename = true -> last_char filename = Some "m"%char).
  { intros filename H. apply A in H as [stem ->]. apply last_char_append. }
  split; [exact A|]. split; [exact B|]. split; [|reflexivity].
  intros stem.
  repeat split;
    match goal with
    | |- is_ignored_filename ?f = false =>
        destruct (is_ignored_filename f) eqn:E; [|reflexivity];
        apply B in E; rewrite last_char_append in E; discriminate
    end.
Qed.

(** ** Construction *)

Definition otp_not_found : exn :=
  RuntimeError "Erlang/OTP not found. Install from: https://www.erlang.org/downloads".

(** Construction succeeds exactly when [erlang_ls] is on the path and
    [erl -version] ran and returned 0.  A missing [erlang_ls] raises
    [RuntimeError] first, whatever [erl] would do.  With [erlang_ls] present,
    a non-zero return code and a [SubprocessError] (a timeout included) or
    [FileNotFoundError] of [subprocess.run] raise the "Erlang/OTP not found"
    [RuntimeError]; any other exception of [subprocess.run], a
    [PermissionError] for instance, leaves the constructor as itself.  A
    constructed object starts with both flags clear and no handler, and its
    launch command is the found executable in stdio transport mode, followed
    under CI (and only then) by [--log-level info]. *)
Theorem construction_outcomes (root : string) (os : Environ) (which : option string)
    (erl : Z + exn) (now : Z) (emissions : list (Z * notification)) :
  ((exists s, __init__ root os which erl now emissions = inl s) <->
   (exists path, which = Some path /\ path <> EmptyString) /\ erl = inl 0)
  /\ (which = None \/ which = Some EmptyString ->
      __init__ root os which erl now emissions
      = inr (RuntimeError "Erlang LS not found. Install from: https://github.com/erlang-ls/erlang_ls"))
  /\ (forall path,
        which = Some path -> path <> EmptyString ->
        match erl with
        | inl returncode =>
            returncode <> 0 ->
            __init__ root os which erl now emissions = inr otp_not_found
        | inr e =>
            __init__ root os which erl now emissions
            = inr (if is_subprocess_failure e then otp_not_found else e)
        end)
  /\ (forall s path,
        __init__ root os which erl now emissions = inl s ->
        which = Some path ->
        launch_cmd s
        = [path; "--transport"; "stdio"]
          ++ (if is_ci os then ["--log-level"; "info"] else [])
        /\ repository_root_path s = root
        /\ server_ready s = false
        /\ completions_available s = false
        /\ handlers s = ∅).
Proof.
  unfold __init__, otp_not_found.
  destruct which as [[|c p]|].
  - split; [split; [intros [s H]; discriminate | intros [(path & [= <-] & N) _]; congruence]|].
    split; [reflexivity|]. split; [intros path [= <-] N; congruence|].
    intros s path H; discriminate.
  - destruct erl as [rc|e]; cbn [_check_erlang_installation].
    + destruct (Z.eqb_spec rc 0) as [->|Hrc].
      * split; [split; [intros _; split; [eexists; split; [reflexivity | discriminate] | reflexivity] | eauto]|].
        split; [intros [H|H]; discriminate|].
        split; [intros path _ _ N; congruence|].
        intros s path [= <-] [= <-]. simpl.
        destruct (is_ci os); repeat split; reflexivity.
      * split; [split; [intros [s H]; discriminate | intros [_ [= H]]; congruence]|].
        split; [intros [H|H]; discriminate|].
        split; [reflexivity|].
        intros s path H; discriminate.
    + destruct (is_subprocess_failure e).
      * split; [split; [intros [s H]; discriminate | intros [_ H]; discriminate]|].
        split; [intros [H|H]; discriminate|].
        split; [reflexivity|].
        intros s path H; discriminate.
      * split; [split; [intros [s H]; discriminate | intros [_ H]; discriminate]|].
        split; [intros [H|H]; discriminate|].
        split; [reflexivity|].
        intros s path H; discriminate.
  - split; [split; [intros [s H]; discriminate | intros [(path & H & _) _]; discriminate]|].
    split; [reflexivity|]. split; [intros path H; discriminate|].
    intros s path H; discriminate.
Qed.

(** ** Edge behaviour of the notification handlers *)

Definition lsp_line (message_text : json) : effect :=
  Log INFO [Lit "LSP: window/logMessage: "; Val message_text].

(** [window/logMessage] payloads of every shape.  A payload that is no
    object raises [AttributeError] before anything is logged and leaves the
    object untouched.  An object without a [message] member is treated as the
    empty text: the line is logged, nothing else happens and the handler
    returns.  A [message] that is no string is logged and then raises
    [AttributeError]; the flag keeps its value.  For an object with a string
    message the handler always returns. *)
Theorem log_message_payload_shapes (s : state) :
  (forall msg,
     (forall kv, msg <> JDict kv) ->
     window_log_message msg s = (s, inr (AttributeError "get")))
  /\ (forall kv,
        Py.assoc "message" kv = None ->
        window_log_message (JDict kv) s = (emit (lsp_line (JStr "")) s, inl tt))
  /\ (forall kv v,
        Py.assoc "message" kv = Some v ->
        (forall text, v <> JStr text) ->
        window_log_message (JDict kv) s
        = (emit (lsp_line v) s, inr (AttributeError "lower")))
  /\ (forall kv text,
        Py.assoc "message" kv = Some (JStr text) ->
        (window_log_message (JDict kv) s).2 = inl tt).
Proof.
  split.
  { intros msg Hno. unfold window_log_message.
    destruct msg as [| | | | |kv]; try reflexivity. destruct (Hno kv eq_refl). }
  split.
  { intros kv Hnone.
    rewrite (window_log_message_text (JDict kv) "" s) by (simpl; rewrite Hnone; reflexivity).
    reflexivity. }
  split.
  { intros kv v Hv Hno. unfold window_log_message, log. cbn [Py.get]. rewrite Hv. exec.
    destruct v as [| | |text| |]; try reflexivity. destruct (Hno text eq_refl). }
  intros kv text Hv.
  rewrite (window_log_message_text (JDict kv) text s) by (simpl; rewrite Hv; reflexivity).
  reflexivity.
Qed.

(** [$/progress] payloads that are no completion.  Unless the payload is of
    kind "end" with a string message containing a completion word, the
    handler leaves the whole object as it was: it sets nothing and logs
    nothing.  In particular a missing [value], a missing [kind], a kind other
    than "end" and an "end" without message all return normally with the
    object unchanged. *)
Theorem progress_without_completion (s : state) :
  (forall params,
     progress_signals params = false -> (check_server_ready params s).1 = s)
  /\ (forall kv,
        Py.assoc "value" kv = None ->
        check_server_ready (JDict kv) s = (s, inl tt))
  /\ (forall params kv kind,
        Py.get params "value" (JDict []) = inl (JDict kv) ->
        Py.get (JDict kv) "kind" JNull = inl kind ->
        Py.eq_str kind "end" = false ->
        check_server_ready params s = (s, inl tt))
  /\ (forall params kv,
        Py.get params "value" (JDict []) = inl (JDict kv) ->
        Py.assoc "kind" kv = Some (JStr "end") ->
        Py.assoc "message" kv = None ->
        check_server_ready params s = (s, inl tt)).
Proof.
  split.
  { intros params H. rewrite check_server_ready_state, H. reflexivity. }
  split.
  { intros kv H. unfold check_server_ready. cbn [Py.get]. rewrite H. reflexivity. }
  split.
  { intros params kv kind Hv Hk He. unfold check_server_ready.
    rewrite Hv. exec. rewrite Hk. exec. rewrite He. reflexivity. }
  intros params kv Hv Hk Hm. unfold check_server_ready.
  rewrite Hv. exec. cbn [Py.get]. rewrite Hk, Hm. exec. reflexivity.
Qed.

(** Of the six methods [_start_server] registers, only [window/logMessage]
    and [$/progress] can have an effect: a notification or request of any
    other method, registered or not, leaves the object exactly as it was. *)
Theorem other_methods_ignored (method : string) (params : json) (s : state) :
  handlers s = startup_handlers ->
  method <> "window/logMessage" ->
  method <> "$/progress" ->
  dispatch (method, params) s = s.
Proof.
  intros Hh N1 N2. unfold dispatch. cbn [fst snd]. rewrite Hh.
  unfold startup_handlers, registered.
  rewrite !lookup_insert. repeat case_decide; subst; try congruence; reflexivity.
Qed.

Lemma other_methods_ignored_witness :
  dispatch ("textDocument/publishDiagnostics", JDict [("diagnostics", JList [])])
    (with_handlers startup_handlers (fresh local_env []))
  = with_handlers startup_handlers (fresh local_env []).
Proof.
  apply other_methods_ignored; [reflexivity | discriminate | discriminate].
Defined.

(** ** More about start-up *)

(** After the initialize call has returned or raised, the rest of the
    handshake only logs, notifies and sets the gate. *)
Lemma handshake_frame (tr : Transport) (params : json) (s : state) :
  let s2 := after_initialize tr params s in
  let s3 := (handshake tr params s).1 in
  clock s3 = clock s2 /\ inbox s3 = inbox s2
  /\ server_ready s3 = server_ready s2 /\ handlers s3 = handlers s2.
Proof.
  cbv zeta. unfold after_initialize.
  set (s2 := (elapse (initialize_latency tr) (emit (Server (send_initialize params)) s)).1).
  unfold handshake, try_except, server_send_initialize, server_notify_initialized,
    completions_available_set, log.
  exec. fold s2. clearbody s2.
  destruct (initialize_result tr) as [resp|e]; exec;
    [|cbn [Exception]; exec; repeat split; reflexivity].
  destruct resp as [|b|n|text|l|kv]; cbn [Py.contains]; exec;
    try (cbn [Exception]; exec; repeat split; reflexivity).
  - destruct (PyStr.contains "capabilities" text); exec; cbn [Py.getitem]; exec;
      try (cbn [Exception]; exec; repeat split; reflexivity).
    destruct (initialized_result tr) as [[]|e]; exec; cbn [Exception]; exec;
      repeat split; reflexivity.
  - destruct (existsb (fun x => Py.eq_str x "capabilities") l); exec;
      cbn [Py.getitem]; exec;
      try (cbn [Exception]; exec; repeat split; reflexivity).
    destruct (initialized_result tr) as [[]|e]; exec; cbn [Exception]; exec;
      repeat split; reflexivity.
  - destruct (Py.assoc "capabilities" kv) as [caps|] eqn:Hcaps; exec.
    + cbn [Py.getitem]. rewrite Hcaps. exec.
      destruct caps as [| | | | |caps]; cbn [Py.keys]; exec;
        try (cbn [Exception]; exec; repeat split; reflexivity).
      destruct (initialized_result tr) as [[]|e]; exec; cbn [Exception]; exec;
        repeat split; reflexivity.
    + destruct (initialized_result tr) as [[]|e]; exec; cbn [Exception]; exec;
        repeat split; reflexivity.
Qed.

(** What [_start_server] has done when [server.start()] raises. *)
Lemma launch_start_raises (tr : Transport) (s : state) (e : exn) :
  start_result tr = inr e ->
  exists s1,
    launch_and_handshake tr s = (s1, inr e)
    /\ handlers s1 = registered (handlers s)
    /\ server_ready s1 = server_ready s
    /\ completions_available s1 = completions_available s
    /\ clock s1 = clock s
    /\ inbox s1 = inbox s
    /\ trace s1
       = trace s
         ++ [ (clock s, Server (on_request "client/registerCapability"
                                  H_register_capability_handler));
              (clock s, Server (on_notification "window/logMessage" H_window_log_message));
              (clock s, Server (on_notification "$/progress" H_check_server_ready));
              (clock s, Server (on_notification "window/workDoneProgress/create"
                                  H_do_nothing));
              (clock s, Server (on_notification "$/workDoneProgress" H_do_nothing));
              (clock s, Server (on_notification "textDocument/publishDiagnostics"
                                  H_do_nothing));
              (clock s, Log INFO [Lit "Starting Erlang LS server process"]);
              (clock s, Server start) ].
Proof.
  intros Hstart. eexists. split.
  - unfold launch_and_handshake, server_on_request, server_on_notification,
      register, server_start, log.
    rewrite Hstart. exec. reflexivity.
  - simpl. rewrite <- !app_assoc. simpl. repeat split; reflexivity.
Qed.

(** The readiness wait and the settling period leave the handler table
    alone. *)
Definition same_handlers (s s' : state) : Prop := handlers s' = handlers s.

#[export] Instance same_handlers_preorder : PreOrder same_handlers.
Proof. split; [intros s; reflexivity | intros a b c H1 H2; unfold same_handlers in *; congruence]. Qed.

Lemma same_handlers_emit (e : effect) : respects same_handlers (modify (emit e)).
Proof. intros s. reflexivity. Qed.

Lemma same_handlers_log (text : list piece) (lvl : level) :
  respects same_handlers (log text lvl).
Proof. intros s. reflexivity. Qed.

Lemma same_handlers_server_ready_set (who : setter) :
  respects same_handlers (server_ready_set who).
Proof. intros s. reflexivity. Qed.

Lemma same_handlers_elapse (d : Z) : respects same_handlers (elapse d).
Proof. intros s. apply (dl_handlers _ _ (delivered_elapse d s)). Qed.

Lemma same_handlers_server_ready_wait (timeout : Z) :
  respects same_handlers (server_ready_wait timeout).
Proof.
  intros s. unfold server_ready_wait, same_handlers.
  pose proof (dl_handlers _ _ (delivered_wait_until (clock s + timeout) (inbox s) s)) as H.
  destruct (wait_until (clock s + timeout) (inbox s) s). exact H.
Qed.

#[export] Hint Resolve same_handlers_emit same_handlers_log
  same_handlers_server_ready_set same_handlers_elapse
  same_handlers_server_ready_wait : respects.

Lemma same_handlers_await_readiness (os : Environ) :
  respects same_handlers (await_readiness os).
Proof. unfold await_readiness, time_sleep. walk. Qed.

Lemma registered_idempotent (table : gmap string handler) :
  registered (registered table) = registered table.
Proof.
  apply map_eq. intros method. unfold registered.
  rewrite !lookup_insert. repeat case_decide; subst; congruence || reflexivity.
Qed.

Lemma handlers_after_launch (tr : Transport) (s : state) :
  handlers (launch_and_handshake tr s).1 = registered (handlers s).
Proof.
  destruct (start_result tr) as [[]|e] eqn:Hstart.
  - destruct (launch_reaches_handshake tr s Hstart) as (s1 & -> & H1 & _).
    destruct (handshake_frame tr (initialize_params (repository_root_path s)) s1)
      as (_ & _ & _ & H3).
    rewrite H3. unfold after_initialize.
    rewrite (dl_handlers _ _ (delivered_elapse _ _)). exact H1.
  - destruct (launch_start_raises tr s e Hstart) as (s1 & -> & H1 & _). exact H1.
Qed.

(** Whatever happens during start-up (the process fails to start, the
    handshake fails, readiness is signalled or forced), [_start_server]
    leaves the transport with its six handlers registered on top of what was
    registered before; a second call registers the same table again. *)
Theorem handlers_registered_on_every_path (os : Environ) (tr tr' : Transport)
    (s : state) :
  handlers (_start_server os tr s).1 = registered (handlers s)
  /\ handlers (_start_server os tr' (_start_server os tr s).1).1
     = registered (handlers s)
  /\ (handlers s = ∅ -> handlers (_start_server os tr s).1 = startup_handlers).
Proof.
  assert (A : forall tr0 s0, handlers (_start_server os tr0 s0).1 = registered (handlers s0)).
  { intros tr0 s0. rewrite start_server_split.
    pose proof (handlers_after_launch tr0 s0) as H.
    destruct (launch_and_handshake tr0 s0) as [s3 [[]|e]]; [|exact H].
    simpl in H. rewrite <- H. apply same_handlers_await_readiness. }
  split; [apply A|]. split.
  - rewrite A, A. apply registered_idempotent.
  - intros H. rewrite A, H. reflexivity.
Qed.

Lemma await_readiness_returns (os : Environ) (s : state) :
  (await_readiness os s).2 = inl tt.
Proof. apply (await_readiness_run os s). Qed.

Lemma launch_clock (tr : Transport) (s : state) :
  start_result tr = inl tt ->
  0 <= initialize_latency tr ->
  clock (launch_and_handshake tr s).1 = clock s + initialize_latency tr.
Proof.
  intros Hstart Hlat.
  destruct (launch_reaches_handshake tr s Hstart) as (s1 & -> & _ & _ & _ & K1 & _).
  destruct (handshake_frame tr (initialize_params (repository_root_path s)) s1)
    as (K3 & _).
  rewrite K3. unfold after_initialize. rewrite clock_elapse by exact Hlat.
  simpl. lia.
Qed.

(** When the process cannot be started, [_start_server] raises what
    [server.start()] raised, right away: the handlers are registered and
    [start] is the last call made on the transport, no initialize request is
    sent, the gate and the readiness flag keep their values and nothing
    sleeps. *)
Theorem start_failure_stops_startup (os : Environ) (tr : Transport) (s : state)
    (e : exn) :
  start_result tr = inr e ->
  let final := (_start_server os tr s).1 in
  (_start_server os tr s).2 = inr e
  /\ server_calls (trace final) = server_calls (trace s) ++ launch_calls
  /\ completions_available final = completions_available s
  /\ server_ready final = server_ready s
  /\ clock final = clock s
  /\ sleeps (trace final) = sleeps (trace s).
Proof.
  intros Hstart final. subst final. rewrite start_server_split.
  destruct (launch_start_raises tr s e Hstart)
    as (s1 & -> & _ & R1 & C1 & K1 & _ & T1).
  simpl. rewrite T1. unfold sleeps. rewrite server_calls_app, omap_app. simpl.
  rewrite app_nil_r. repeat split; auto.
Qed.

Definition unstartable_transport : Transport :=
  {| start_result := inr (OtherError "erlang_ls exited");
     initialize_latency := 0;
     initialize_result := inr (OtherError "unreachable");
     initialized_result := inl tt |}.

Lemma start_failure_stops_startup_witness :
  (_start_server local_env unstartable_transport (fresh local_env [])).2
  = inr (OtherError "erlang_ls exited")
  /\ completions_available
       (_start_server local_env unstartable_transport (fresh local_env [])).1 = false.
Proof.
  destruct (start_failure_stops_startup local_env unstartable_transport
              (fresh local_env []) _ eq_refl) as (H1 & _ & H3 & _).
  split; [exact H1 | exact H3].
Defined.

(** A [_start_server] that raises after the process was started raises when
    the initialize call is over: it never waits for readiness, never sleeps
    and never forces the flag, and the gate is set when the exception leaves
    it. *)
Theorem handshake_failure_skips_wait (os : Environ) (tr : Transport) (s : state)
    (e : exn) :
  start_result tr = inl tt ->
  (_start_server os tr s).2 = inr e ->
  0 <= initialize_latency tr ->
  let final := (_start_server os tr s).1 in
  clock final = clock s + initialize_latency tr
  /\ sleeps (trace final) = sleeps (trace s)
  /\ forced_sets (trace final) = forced_sets (trace s)
  /\ completions_available final = true.
Proof.
  intros Hstart Hraise Hlat final. subst final.
  rewrite start_server_split in *.
  pose proof (launch_clock tr s Hstart Hlat) as K.
  pose proof (unslept_launch_and_handshake tr s) as [S F].
  assert (G : completions_available (launch_and_handshake tr s).1 = true).
  { destruct (launch_reaches_handshake tr s Hstart) as (s1 & -> & _).
    apply handshake_sets_gate. }
  destruct (launch_and_handshake tr s) as [s3 [[]|e']].
  - rewrite await_readiness_returns in Hraise. discriminate.
  - simpl in *. auto.
Qed.

Lemma handshake_failure_skips_wait_witness :
  clock (_start_server ci_env failing_transport (fresh ci_env silent_child)).1 = 300.
Proof.
  refine (proj1 (handshake_failure_skips_wait ci_env failing_transport
                   (fresh ci_env silent_child) (OtherError "connection closed")
                   eq_refl _ _)).
  - vm_compute. reflexivity.
  - vm_compute. discriminate.
Defined.

(** An initialize response the capability logging cannot read aborts the
    handshake like a failed call.  If the response object has a
    [capabilities] member that is no object, [AttributeError] is raised; if
    the response is [null], a boolean or a number, [TypeError] is.  In both
    cases the gate is set, the exception leaves the handshake and the
    [initialized] notification is not sent. *)
Theorem unreadable_response_aborts (tr : Transport) (params : json) (s : state) :
  let final := (handshake tr params s).1 in
  (forall kv v,
     initialize_result tr = inl (JDict kv) ->
     Py.assoc "capabilities" kv = Some v ->
     (forall d, v <> JDict d) ->
     (handshake tr params s).2 = inr (AttributeError "keys")
     /\ server_calls (trace final) = server_calls (trace s) ++ [send_initialize params]
     /\ completions_available final = true)
  /\ (forall resp,
        initialize_result tr = inl resp ->
        resp = JNull \/ (exists b, resp = JBool b) \/ (exists n, resp = JNum n) ->
        (handshake tr params s).2 = inr (TypeError "argument is not iterable")
        /\ server_calls (trace final) = server_calls (trace s) ++ [send_initialize params]
        /\ completions_available final = true).
Proof.
  cbv zeta.
  pose proof (server_calls_after_initialize tr params s) as C.
  unfold after_initialize in C.
  set (s2 := (elapse (initialize_latency tr) (emit (Server (send_initialize params)) s)).1) in *.
  split.
  - intros kv v Hresp Hcaps Hno.
    unfold handshake, try_except, server_send_initialize, server_notify_initialized,
      completions_available_set, log.
    exec. fold s2. clearbody s2. rewrite Hresp. exec.
    cbn [Py.contains]. rewrite Hcaps. exec. cbn [Py.getitem]. rewrite Hcaps. exec.
    destruct v as [| | | | |d]; try (destruct (Hno d eq_refl));
      cbn [Py.keys]; exec; cbn [Exception]; exec;
      (split; [reflexivity|]); (split; [|reflexivity]);
      simpl; rewrite !server_calls_app, C; simpl; rewrite !app_nil_r; reflexivity.
  - intros resp Hresp Hshape.
    unfold handshake, try_except, server_send_initialize, server_notify_initialized,
      completions_available_set, log.
    exec. fold s2. clearbody s2. rewrite Hresp. exec.
    destruct Hshape as [-> | [[b ->] | [n ->]]];
      cbn [Py.contains]; exec; cbn [Exception]; exec;
      (split; [reflexivity|]); (split; [|reflexivity]);
      simpl; rewrite !server_calls_app, C; simpl; rewrite !app_nil_r; reflexivity.
Qed.

(** A [_start_server] that returns leaves both flags set. *)
Theorem both_flags_set_on_return (os : Environ) (tr : Transport) (s : state) :
  (_start_server os tr s).2 = inl tt ->
  server_ready (_start_server os tr s).1 = true
  /\ completions_available (_start_server os tr s).1 = true.
Proof.
  intros Hdone. rewrite start_server_split in *.
  assert (G : forall s3, launch_and_handshake tr s = (s3, inl tt) ->
                         completions_available s3 = true).
  { intros s3 E. destruct (start_result tr) as [[]|e] eqn:Hstart.
    - destruct (launch_reaches_handshake tr s Hstart) as (s1 & Hrun & _).
      pose proof (handshake_sets_gate tr (initialize_params (repository_root_path s)) s1) as H.
      rewrite <- Hrun, E in H. exact H.
    - destruct (launch_start_raises tr s e Hstart) as (s1 & Hrun & _).
      rewrite Hrun in E. discriminate. }
  destruct (launch_and_handshake tr s) as [s3 [[]|e]]; [|discriminate].
  destruct (await_readiness_run os s3) as (_ & R & _ & _ & _ & _ & _ & C).
  split; [exact R|]. rewrite C. apply G. reflexivity.
Qed.

Lemma both_flags_set_on_return_witness :
  server_ready (_start_server ci_env good_transport (fresh ci_env silent_child)).1 = true
  /\ completions_available
       (_start_server ci_env good_transport (fresh ci_env silent_child)).1 = true.
Proof.
  apply both_flags_set_on_return. vm_compute. reflexivity.
Defined.

(** ** Signalled readiness *)

Lemma wait_until_ready (deadline : Z) (pending : list (Z * notification)) (s : state) :
  server_ready s = true -> wait_until deadline pending s = (with_inbox pending s, true).
Proof. intros H. destruct pending as [|[t n] rest]; simpl; rewrite H; reflexivity. Qed.

Lemma handlers_dispatch (n : notification) (s : state) :
  handlers (dispatch n s) = handlers s.
Proof. apply (dl_handlers _ _ (delivered_dispatch n s)). Qed.

(** A readiness signal that is due before the deadline ends the wait. *)
Lemma wait_until_signalled (deadline t : Z) (n : notification)
    (before after : list (Z * notification)) (s : state) :
  handlers s = startup_handlers ->
  is_readiness_signal n = true ->
  t < deadline ->
  (forall x, x ∈ before -> x.1 <= t) ->
  (wait_until deadline (before ++ (t, n) :: after) s).2 = true
  /\ clock (wait_until deadline (before ++ (t, n) :: after) s).1 <= Z.max (clock s) t.
Proof.
  intros Hh Hsig Ht. revert s Hh.
  induction before as [|[t' n'] before IH]; intros s Hh Hb.
  - destruct (server_ready s) eqn:R.
    + rewrite wait_until_ready by exact R. simpl. split; [reflexivity | lia].
    + simpl. rewrite R. apply Z.ltb_lt in Ht. rewrite Ht.
      rewrite wait_until_ready.
      * simpl. rewrite clock_dispatch. simpl. split; [reflexivity | lia].
      * rewrite dispatch_ready by exact Hh. rewrite Hsig. apply orb_true_r.
  - destruct (server_ready s) eqn:R.
    + rewrite wait_until_ready by exact R. simpl. split; [reflexivity | lia].
    + assert (Ht' : t' <= t) by (apply (Hb (t', n')), elem_of_cons; auto).
      simpl. rewrite R.
      assert (E : (t' <? deadline) = true) by (apply Z.ltb_lt; lia).
      rewrite E.
      destruct (IH (dispatch n' (tick_to t' s))) as [I1 I2].
      * rewrite handlers_dispatch. exact Hh.
      * intros x Hx. apply Hb, elem_of_cons. auto.
      * split; [exact I1|]. rewrite clock_dispatch in I2. simpl in I2. lia.
Qed.

(** While the calling thread is blocked, a pending readiness signal is either
    delivered, which sets the flag, or still pending afterwards. *)
Lemma deliver_until_signal (t_end t : Z) (n : notification)
    (before after : list (Z * notification)) (s : state) :
  handlers s = startup_handlers ->
  is_readiness_signal n = true ->
  (forall x, x ∈ before -> x.1 <= t) ->
  server_ready (deliver_until t_end (before ++ (t, n) :: after) s) = true
  \/ exists before',
       inbox (deliver_until t_end (before ++ (t, n) :: after) s)
       = before' ++ (t, n) :: after
       /\ forall x, x ∈ before' -> x.1 <= t.
Proof.
  intros Hh Hsig. revert s Hh.
  induction before as [|[t' n'] before IH]; intros s Hh Hb; simpl.
  - destruct (t <=? t_end).
    + left. apply (ev_ready _ _ (evolves_deliver_until _ _ _)).
      rewrite dispatch_ready by exact Hh. rewrite Hsig. apply orb_true_r.
    + right. exists []. split; [reflexivity|]. intros x Hx.
      apply elem_of_nil in Hx. contradiction.
  - destruct (t' <=? t_end).
    + apply IH.
      * rewrite handlers_dispatch. exact Hh.
      * intros x Hx. apply Hb, elem_of_cons. auto.
    + right. exists ((t', n') :: before). split; [reflexivity | exact Hb].
Qed.

(** The complement of the forced transition.  Take a freshly constructed
    object and a handshake that succeeds.  If the child emits a readiness
    signal at a time [t] before the deadline, after everything it emitted
    earlier, then [_start_server] returns without ever forcing the flag: it
    sleeps the signalled settling delay once, starting no later than the end
    of the handshake or [t], whichever is later, and returns when the delay
    is over. *)
Theorem signalled_readiness (root : string) (os : Environ) (which : option string)
    (erl : Z + exn) (now t : Z) (n : notification)
    (before after : list (Z * notification))
    (tr : Transport) (resp : json) (s : state) :
  __init__ root os which erl now (before ++ (t, n) :: after) = inl s ->
  start_result tr = inl tt ->
  initialize_result tr = inl resp ->
  response_ok resp = true ->
  initialized_result tr = inl tt ->
  0 <= initialize_latency tr ->
  is_readiness_signal n = true ->
  t < now + initialize_latency tr + (ready_timeout (is_ci os) (is_macos os)).1 ->
  (forall x, x ∈ before -> x.1 <= t) ->
  let final := (_start_server os tr s).1 in
  (_start_server os tr s).2 = inl tt
  /\ server_ready final = true
  /\ forced_sets (trace final) = []
  /\ exists returned,
       returned <= Z.max (now + initialize_latency tr) t
       /\ sleeps (trace final) = [(returned, settling_time (is_ci os))]
       /\ clock final = returned + settling_time (is_ci os).
Proof.
  intros Hinit Hstart Hresp Hok Hnotify Hlat Hsig Ht Hb final. subst final.
  destruct (init_fresh _ _ _ _ _ _ _ Hinit) as (R0 & _ & H0 & K0 & I0 & T0 & _).
  destruct (launch_reaches_handshake tr s Hstart)
    as (s1 & Hrun & H1 & R1 & _ & K1 & I1 & _).
  set (params := initialize_params (repository_root_path s)) in *.
  destruct (handshake_answered tr params s1 resp Hresp Hok)
    as (s3 & ex & Hhs & R3 & H3 & K3 & I3 & _).
  rewrite Hnotify in Hhs.
  assert (Hs1 : handlers (emit (Server (send_initialize params)) s1) = startup_handlers).
  { simpl. rewrite H1, H0. reflexivity. }
  assert (H2 : handlers (after_initialize tr params s1) = startup_handlers).
  { unfold after_initialize. rewrite (dl_handlers _ _ (delivered_elapse _ _)). exact Hs1. }
  assert (K2 : clock (after_initialize tr params s1) = now + initialize_latency tr).
  { unfold after_initialize. rewrite clock_elapse by exact Hlat. simpl. lia. }
  (* the wait returns True, no later than max (handshake end) t *)
  assert (W : (readiness_wait os s3).2 = true
              /\ clock (readiness_wait os s3).1 <= Z.max (now + initialize_latency tr) t).
  { unfold readiness_wait.
    destruct (deliver_until_signal (clock s1 + initialize_latency tr) t n before after
                (emit (Server (send_initialize params)) s1) Hs1 Hsig Hb)
      as [Hready | (before' & Hinbox & Hb')].
    - rewrite wait_until_ready.
      + simpl. split; [reflexivity|]. rewrite K3, K2. lia.
      + simpl. rewrite R3. unfold after_initialize, elapse, modify. simpl.
        rewrite I1, I0. exact Hready.
    - assert (I : inbox s3 = before' ++ (t, n) :: after).
      { rewrite I3. unfold after_initialize, elapse, modify. simpl.
        rewrite I1, I0. exact Hinbox. }
      rewrite I.
      destruct (wait_until_signalled
                  (clock s3 + (ready_timeout (is_ci os) (is_macos os)).1) t n before' after
                  (emit (waiting_line os) s3)) as [W1 W2]; auto.
      + simpl. congruence.
      + rewrite K3, K2. exact Ht.
      + split; [exact W1|]. simpl in W2.
        assert (clock s3 = now + initialize_latency tr) by congruence. lia. }
  destruct W as [W1 W2].
  assert (F3 : forced_sets (trace s3) = []).
  { pose proof (unslept_launch_and_handshake tr s) as [_ F].
    rewrite Hrun, Hhs in F. simpl in F. rewrite F, T0. reflexivity. }
  assert (S3 : sleeps (trace s3) = []).
  { pose proof (unslept_launch_and_handshake tr s) as [S _].
    rewrite Hrun, Hhs in S. simpl in S. rewrite S, T0. reflexivity. }
  rewrite start_server_split, Hrun, Hhs.
  destruct (await_readiness_run os s3) as (A1 & A2 & A3 & A4 & _ & _ & A7 & _).
  rewrite W1 in *. rewrite S3 in A3. rewrite F3 in A4.
  split; [exact A1|]. split; [exact A2|]. split; [exact A4|].
  exists (clock (readiness_wait os s3).1). auto.
Qed.

(** A child that announces readiness 200 ms after it was started. *)
Definition ready_child : list (Z * notification) :=
  [ (100, log_message "Compiling module app_sup");
    (200, log_message "Server started and ready to serve requests");
    (900, progress "end" "Indexing complete") ].

Lemma signalled_readiness_witness :
  forced_sets
    (trace (_start_server local_env good_transport (fresh local_env ready_child)).1)
  = [].
Proof.
  refine (proj1 (proj2 (proj2
    (signalled_readiness "/repo" local_env (Some "/usr/bin/erlang_ls") (inl 0) 0
       200 (log_message "Server started and ready to serve requests")
       [(100, log_message "Compiling module app_sup")]
       [(900, progress "end" "Indexing complete")]
       good_transport _ (fresh local_env ready_child)
       eq_refl eq_refl eq_refl eq_refl eq_refl _ _ _ _)))).
  - vm_compute. discriminate.
  - vm_compute. reflexivity.
  - vm_compute. reflexivity.
  - intros x Hx. apply elem_of_cons in Hx as [->|Hx]; [simpl; lia|].
    apply elem_of_nil in Hx. contradiction.
Defined.

(** ** Logging of the request wrappers *)

Definition slow_line (what : string) (elapsed : Z) : effect :=
  Log INFO [Lit ("Slow Erlang LS " +:+ what +:+ " request: "); Millis elapsed; Lit "s"].

Definition failed_line (what : string) (elapsed : Z) (e : exn) : effect :=
  Log WARNING [Lit ("Erlang LS " +:+ what +:+ " request failed after ");
               Millis elapsed; Lit "s: "; Exc e].

(** A request wrapper adds exactly one thing to the inherited call.  If the
    call returns, a "Slow ..." line is logged at INFO when the call took
    more than 10 s and nothing is logged when it took less than 10 s; if the
    call raises, one "... failed after" line with the elapsed time and the
    exception is logged at WARNING.  Times are read on the model's
    millisecond clock; a call that takes exactly 10 s, where the code's
    floating-point subtraction decides, is left out.  [returned] is the state
    in which the inherited call returns or raises. *)
Theorem request_logging (call : SuperCall) (s : state) :
  0 <= latency call ->
  (let returned := (super_request "request_containing_symbol" call s).1 in
   let final := (request_containing_symbol call s).1 in
   match outcome call with
   | inl _ =>
       (seconds 10 < latency call ->
        final = emit (slow_line "containing symbol" (latency call)) returned)
       /\ (latency call < seconds 10 -> final = returned)
   | inr e => final = emit (failed_line "containing symbol" (latency call) e) returned
   end)
  /\ (let returned := (super_request "request_referencing_symbols" call s).1 in
      let final := (request_referencing_symbols call s).1 in
      match outcome call with
      | inl _ =>
          (seconds 10 < latency call ->
           final = emit (slow_line "referencing symbols" (latency call)) returned)
          /\ (latency call < seconds 10 -> final = returned)
      | inr e => final = emit (failed_line "referencing symbols" (latency call) e) returned
      end).
Proof.
  intros Hlat. split; cbv zeta.
  - unfold request_containing_symbol, super_request, time_time, try_except, log,
      slow_line, failed_line.
    exec.
    set (returned := (elapse (latency call)
                        (emit (Server (call_super "request_containing_symbol")) s)).1).
    assert (K : clock returned = clock s + latency call).
    { unfold returned. rewrite clock_elapse by exact Hlat. reflexivity. }
    destruct (outcome call) as [result|e]; exec; cbn [Exception fst]; exec;
      rewrite K; replace (clock s + latency call - clock s) with (latency call) by lia.
    + split; intros H.
      * assert (E : (latency call >? seconds 10) = true)
          by (rewrite Z.gtb_ltb; apply Z.ltb_lt; exact H).
        rewrite E. reflexivity.
      * assert (E : (latency call >? seconds 10) = false)
          by (rewrite Z.gtb_ltb; apply Z.ltb_ge; lia).
        rewrite E. reflexivity.
    + reflexivity.
  - unfold request_referencing_symbols, super_request, time_time, try_except, log,
      slow_line, failed_line.
    exec.
    set (returned := (elapse (latency call)
                        (emit (Server (call_super "request_referencing_symbols")) s)).1).
    assert (K : clock returned = clock s + latency call).
    { unfold returned. rewrite clock_elapse by exact Hlat. reflexivity. }
    destruct (outcome call) as [result|e]; exec; cbn [Exception fst]; exec;
      rewrite K; replace (clock s + latency call - clock s) with (latency call) by lia.
    + split; intros H.
      * assert (E : (latency call >? seconds 10) = true)
          by (rewrite Z.gtb_ltb; apply Z.ltb_lt; exact H).
        rewrite E. reflexivity.
      * assert (E : (latency call >? seconds 10) = false)
          by (rewrite Z.gtb_ltb; apply Z.ltb_ge; lia).
        rewrite E. reflexivity.
    + reflexivity.
Qed.

(** A call answered after 12.5 s. *)
Definition slow_call : SuperCall :=
  {| latency := 12500; outcome := inl JNull |}.

Lemma request_logging_witness :
  (request_containing_symbol slow_call (fresh local_env [])).1
  = emit (slow_line "containing symbol" 12500)
      (super_request "request_containing_symbol" slow_call (fresh local_env [])).1.
Proof.
  assert (H : 0 <= latency slow_call) by (vm_compute; discriminate).
  refine (proj1 (proj1 (request_logging slow_call (fresh local_env []) H)) _).
  vm_compute. reflexivity.
Defined.

(** ** More about the watchdog *)

(** The psutil calls and naps of a watchdog run, for every behaviour of the
    primitives. *)
Definition watchdog_script (psutil : Psutil) : list effect :=
  match server_process psutil with
  | None => []
  | Some pid =>
      Ps (ps_pid_exists pid) ::
      match pid_exists_result psutil with
      | inl true =>
          Ps (ps_Process pid) ::
          match Process_result psutil with
          | inl _ =>
              Ps ps_cpu_percent ::
              match cpu_percent_result psutil with
              | inl cpu => escalation psutil cpu
              | inr _ => []
              end
          | inr _ => []
          end
      | _ => []
      end
  end.

Ltac watchdog_leaf :=
  cbn [Exception]; exec; cbn [fst];
  repeat first
    [ rewrite watchdog_steps_emit
    | rewrite watchdog_steps_elapse ];
  cbn [app]; rewrite ?app_nil_r, <- ?app_assoc;
  reflexivity.

Lemma watchdog_run (psutil : Psutil) (s : state) :
  watchdog_steps (trace (_force_kill_if_stuck psutil s).1)
  = watchdog_steps (trace s) ++ watchdog_script psutil.
Proof.
  unfold _force_kill_if_stuck, watchdog_script, escalation,
    try_except, ps, time_sleep, log.
  destruct (server_process psutil) as [pid|]; exec; [|watchdog_leaf].
  destruct (pid_exists_result psutil) as [[]|e0]; exec; try watchdog_leaf.
  destruct (Process_result psutil) as [[]|e1]; exec; try watchdog_leaf.
  destruct (cpu_percent_result psutil) as [cpu|e2]; exec; try watchdog_leaf.
  destruct (below_one cpu); exec; try watchdog_leaf.
  destruct (terminate_result psutil) as [[]|e3]; exec.
  - destruct (is_running_result psutil) as [[]|e4]; exec.
    + destruct (kill_result psutil) as [[]|e5]; exec;
        repeat (destruct (is_NoSuchProcess _)); watchdog_leaf.
    + watchdog_leaf.
    + repeat (destruct (is_NoSuchProcess _)); watchdog_leaf.
  - repeat (destruct (is_NoSuchProcess _)); watchdog_leaf.
Qed.

(** The watchdog only acts on a process it has seen idle, and in a fixed
    order.  If it calls [terminate], then [pid_exists] answered [True], the
    process object was obtained, the CPU sample was below 1, and these three
    inspection calls come first, directly followed by [terminate].  If it
    asks [is_running], then [terminate] returned and the 2 s sleep lies
    directly between [terminate] and [is_running].  If it calls [kill], then
    [is_running] answered [True] and the run ends with [terminate], the 2 s
    sleep, [is_running], [kill], in this order.  If the server has no
    process, or the pid does not exist, or any inspection step raises, or the
    sample is 1 or more, nothing is terminated. *)
Theorem watchdog_acts_only_on_idle_process (psutil : Psutil) (s : state) :
  exists steps,
    watchdog_steps (trace (_force_kill_if_stuck psutil s).1)
    = watchdog_steps (trace s) ++ steps
    /\ (In (Ps ps_terminate) steps ->
        exists pid cpu rest,
          server_process psutil = Some pid
          /\ pid_exists_result psutil = inl true
          /\ Process_result psutil = inl tt
          /\ cpu_percent_result psutil = inl cpu
          /\ (cpu < 1)%Q
          /\ steps = [ Ps (ps_pid_exists pid); Ps (ps_Process pid); Ps ps_cpu_percent;
                       Ps ps_terminate ] ++ rest)
    /\ (In (Ps ps_is_running) steps ->
        terminate_result psutil = inl tt
        /\ exists before after,
             steps = before
                     ++ [Ps ps_terminate; Sleep (seconds 2); Ps ps_is_running]
                     ++ after)
    /\ (In (Ps ps_kill) steps ->
        terminate_result psutil = inl tt
        /\ is_running_result psutil = inl true
        /\ exists before,
             steps = before
                     ++ [ Ps ps_terminate; Sleep (seconds 2); Ps ps_is_running;
                          Ps ps_kill ]).
Proof.
  exists (watchdog_script psutil). split; [apply watchdog_run|].
  unfold watchdog_script, escalation.
  destruct (server_process psutil) as [pid|];
    [|simpl; repeat split; intros; intuition discriminate].
  destruct (pid_exists_result psutil) as [[]|e0];
    try (simpl; repeat split; intros; intuition discriminate).
  destruct (Process_result psutil) as [[]|e1];
    try (simpl; repeat split; intros; intuition discriminate).
  destruct (cpu_percent_result psutil) as [cpu|e2];
    try (simpl; repeat split; intros; intuition discriminate).
  destruct (below_one cpu) eqn:B;
    try (simpl; repeat split; intros; intuition discriminate).
  apply below_one_spec in B.
  split.
  { intros _. exists pid, cpu. eexists. repeat split; try reflexivity. exact B. }
  destruct (terminate_result psutil) as [[]|e3];
    try (simpl; split; intros; intuition discriminate).
  destruct (is_running_result psutil) as [[]|e4].
  - split; intros _.
    + split; [reflexivity|].
      exists [Ps (ps_pid_exists pid); Ps (ps_Process pid); Ps ps_cpu_percent], [Ps ps_kill].
      reflexivity.
    + split; [reflexivity|]. split; [reflexivity|].
      exists [Ps (ps_pid_exists pid); Ps (ps_Process pid); Ps ps_cpu_percent].
      reflexivity.
  - split; [intros _ | simpl; intros; intuition discriminate].
    split; [reflexivity|].
    exists [Ps (ps_pid_exists pid); Ps (ps_Process pid); Ps ps_cpu_percent], [].
    reflexivity.
  - split; [intros _ | simpl; intros; intuition discriminate].
    split; [reflexivity|].
    exists [Ps (ps_pid_exists pid); Ps (ps_Process pid); Ps ps_cpu_percent], [].
    reflexivity.
Qed.

(** Without a process handle the watchdog does nothing at all; when the pid
    no longer exists it only asks [pid_exists]: in both cases nothing is
    logged and the object is otherwise untouched. *)
Theorem watchdog_without_process (psutil : Psutil) (s : state) :
  (server_process psutil = None -> _force_kill_if_stuck psutil s = (s, inl tt))
  /\ (forall pid,
        server_process psutil = Some pid ->
        pid_exists_result psutil = inl false ->
        _force_kill_if_stuck psutil s = (emit (Ps (ps_pid_exists pid)) s, inl tt)).
Proof.
  split.
  - intros H. unfold _force_kill_if_stuck, try_except. rewrite H. reflexivity.
  - intros pid Hp He. unfold _force_kill_if_stuck, try_except, ps.
    rewrite Hp, He. exec. reflexivity.
Qed.

Definition error_line (e : exn) : effect :=
  Log DEBUG [Lit "Error in force kill check: "; Exc e].

(** Where the watchdog's exceptions go.  An exception of an inspection step
    is logged at DEBUG and ends the run.  When [terminate] raises on a
    process that was seen idle, [psutil.NoSuchProcess] (and its subclass
    [ZombieProcess]) is swallowed without a trace, any other exception is
    logged at DEBUG; in neither case does the watchdog sleep or kill. *)
Theorem watchdog_exception_routes (psutil : Psutil) (s : state) (pid : Z) :
  server_process psutil = Some pid ->
  (forall e,
     pid_exists_result psutil = inr e ->
     (_force_kill_if_stuck psutil s).1
     = emit (error_line e) (emit (Ps (ps_pid_exists pid)) s))
  /\ (forall e cpu,
        pid_exists_result psutil = inl true ->
        Process_result psutil = inl tt ->
        cpu_percent_result psutil = inl cpu ->
        below_one cpu = true ->
        terminate_result psutil = inr e ->
        exists sampled,
          (_force_kill_if_stuck psutil s).1
          = if is_NoSuchProcess e
            then emit (Ps ps_terminate) sampled
            else emit (error_line e) (emit (Ps ps_terminate) sampled)).
Proof.
  intros Hp. split.
  - intros e He. unfold _force_kill_if_stuck, try_except, ps, log, error_line.
    rewrite Hp, He. exec. reflexivity.
  - intros e cpu He HP Hc Hb Ht.
    unfold _force_kill_if_stuck, try_except, ps, log, time_sleep, error_line.
    rewrite Hp, He, HP, Hc, Ht. exec. rewrite Hb. exec.
    eexists. destruct (is_NoSuchProcess e); cbn [Exception]; exec; reflexivity.
Qed.

Definition vanished_process : Psutil :=
  {| server_process := Some 4242;
     pid_exists_result := inl true;
     Process_result := inl tt;
     cpu_percent_result := inl 0%Q;
     terminate_result := inr NoSuchProcess;
     is_running_result := inl false;
     kill_result := inl tt |}.

Lemma watchdog_exception_routes_witness :
  exists sampled,
    (_force_kill_if_stuck vanished_process (fresh local_env [])).1
    = emit (Ps ps_terminate) sampled.
Proof.
  exact (proj2 (watchdog_exception_routes vanished_process (fresh local_env []) 4242
                  eq_refl)
           NoSuchProcess 0%Q eq_refl eq_refl eq_refl eq_refl eq_refl).
Defined.

(** ** What only [_start_server] changes *)

(** The gate and the handler table. *)
Definition config_kept (s s' : state) : Prop :=
  completions_available s' = completions_available s /\ handlers s' = handlers s.

#[export] Instance config_kept_preorder : PreOrder config_kept.
Proof.
  split.
  - intros s. split; reflexivity.
  - intros a b c [A1 A2] [B1 B2]. split; congruence.
Qed.

Lemma config_kept_emit (e : effect) : respects config_kept (modify (emit e)).
Proof. intros s. split; reflexivity. Qed.

Lemma config_kept_log (text : list piece) (lvl : level) :
  respects config_kept (log text lvl).
Proof. intros s. split; reflexivity. Qed.

Lemma config_kept_delivered (s s' : state) : delivered s s' -> config_kept s s'.
Proof. intros []. split; assumption. Qed.

Lemma config_kept_elapse (d : Z) : respects config_kept (elapse d).
Proof. intros s. apply config_kept_delivered, delivered_elapse. Qed.

Lemma config_kept_time_time : respects config_kept time_time.
Proof. intros s. split; reflexivity. Qed.

#[export] Hint Resolve config_kept_emit config_kept_log config_kept_elapse
  config_kept_time_time : respects.

Lemma config_kept_force_kill_if_stuck (psutil : Psutil) :
  respects config_kept (_force_kill_if_stuck psutil).
Proof. unfold _force_kill_if_stuck, ps, time_sleep. walk. Qed.

Lemma config_kept_request_containing_symbol (call : SuperCall) :
  respects config_kept (request_containing_symbol call).
Proof. unfold request_containing_symbol, super_request. walk. Qed.

Lemma config_kept_request_referencing_symbols (call : SuperCall) :
  respects config_kept (request_referencing_symbols call).
Proof. unfold request_referencing_symbols, super_request. walk. Qed.

Definition is_start (op : operation) : bool :=
  match op with
  | StartServer _ _ => true
  | _ => false
  end.

Lemma config_kept_perform (op : operation) (s : state) :
  is_start op = false -> config_kept s (perform op s).
Proof.
  destruct op; simpl; intros H; try discriminate.
  - etransitivity; [|apply config_kept_delivered, delivered_dispatch].
    split; reflexivity.
  - apply config_kept_delivered, handled_delivered, handled_run_handler.
  - apply config_kept_force_kill_if_stuck.
  - apply config_kept_request_containing_symbol.
  - apply config_kept_request_referencing_symbols.
Qed.

(** Only [_start_server] sets the gate and registers handlers: over any
    sequence of notifications, direct handler calls, watchdog runs and
    requests, [completions_available] and the handler table stay as they
    were.  In particular, on a freshly constructed object the gate stays
    clear until [_start_server] runs, whatever the child emits. *)
Theorem gate_only_set_by_startup (ops : list operation) (s : state) :
  forallb (fun op => negb (is_start op)) ops = true ->
  completions_available (run ops s) = completions_available s
  /\ handlers (run ops s) = handlers s.
Proof.
  revert s. induction ops as [|op ops IH]; intros s H; simpl in *.
  - split; reflexivity.
  - apply andb_true_iff in H as [H1 H2]. apply negb_true_iff in H1.
    destruct (IH (perform op s) H2) as [C Hh].
    destruct (config_kept_perform op s H1) as [C' Hh'].
    split; congruence.
Qed.

Lemma gate_only_set_by_startup_witness :
  completions_available
    (run [ Notify 200 (log_message "Server started and ready to serve requests");
           ForceKillIfStuck stuck_process;
           RequestContainingSymbol quick_call;
           Notify 2900 (progress "end" "Indexing complete") ]
       (fresh local_env []))
  = completions_available (fresh local_env []).
Proof.
  refine (proj1 (gate_only_set_by_startup _ _ _)). reflexivity.
Defined.

(** ** One call of [set] per log message *)

(** The phrase loop stops at the first phrase that matches: a log message
    makes one call of [server_ready.set()] if its text carries at least one
    readiness phrase, however many it carries, and none otherwise.  Unlike
    the progress handler, the log-message handler makes that call also when
    the flag is already set. *)
Theorem one_set_per_log_message (msg : json) (text : string) (s : state) :
  Py.get msg "message" (JStr "") = inl (JStr text) ->
  ready_sets (trace (window_log_message msg s).1)
  = ready_sets (trace s)
    ++ if matches_readiness (PyStr.lower text)
       then [(clock s, by_log_message, server_ready s)]
       else [].
Proof.
  intros Hget. rewrite (window_log_message_text msg text s Hget). cbv zeta.
  unfold ready_sets.
  destruct (matches_readiness (PyStr.lower text));
    destruct (PyStr.any_in failure_words (PyStr.lower text));
    simpl; rewrite ?omap_app; simpl; rewrite ?app_nil_r; reflexivity.
Qed.

Lemma one_set_per_log_message_witness :
  ready_sets
    (trace (window_log_message
              (log_message "Server started, initialized and ready to serve requests").2
              (fresh local_env [])).1)
  = [(0, by_log_message, false)].
Proof.
  exact (one_set_per_log_message
           (log_message "Server started, initialized and ready to serve requests").2
           "Server started, initialized and ready to serve requests"
           (fresh local_env []) eq_refl).
Defined.
